(** * Starfield background of [script.js]: a shallow embedding

    The script animates a layered starfield on a 2D canvas.  This file
    embeds the part of it that runs on every frame and on every resize:
    the surface configuration ([resize]), the construction of the star
    pool, the frame clock and the per-star loop of [draw].

    Modelling choices.
    - A JavaScript number is a real number ([R]).  The arithmetic of the
      script is then exact; the rounding of IEEE-754 doubles, NaN and the
      infinities are outside the model.  Where rounding decides a
      property, the line in question is also given on rounded numbers
      ([phase_rnd]) and on the doubles themselves ([phase64]).
    - The module-level variables of the script ([vw], [vh], [cw], [ch],
      [stars], [last], the canvas and its context) are the fields of the
      record [Engine]; every function of the script takes the engine and
      returns the engine it leaves behind.
    - The 2D context is the list of calls made on it, oldest first.  What
      the context holds at a given moment (its current transform) is read
      back from that list.
    - [Math.random] is a stream of numbers that is consumed in program
      order; the host window is a record of the three metrics the script
      reads. *)

From Stdlib Require Import Reals Lra Lia List String Ascii ZArith.
From Stdlib Require Import DecimalString DecimalN.
From Stdlib Require Import Floats.PrimFloat.
Import ListNotations.
Open Scope R_scope.

Set Warnings "-inexact-float".

(** ** Host primitives *)

Module Math.

Definition min (a b : R) : R := Rmin a b.
Definition max (a b : R) : R := Rmax a b.

(** [Math.floor]: the largest integer not above [v]. *)
Definition floor (v : R) : R := IZR (Int_part v).

Definition sin (v : R) : R := Rtrigo_def.sin v.
Definition PI : R := Rtrigo1.PI.

(** [Math.random()]: the next number of the stream, and the rest. *)
Definition Rng := nat -> R.
Definition random (g : Rng) : R * Rng := (g 0%nat, fun n => g (S n)).

End Math.

(** The metrics of [window] that the script reads.  [devicePixelRatio] is
    [None] on a host that does not define it. *)
Record Window := {
  innerWidth : R;
  innerHeight : R;
  devicePixelRatio : option R
}.

(** [v || d] on numbers: [undefined] and [0] are falsy. *)
Definition or_default (v : option R) (d : R) : R :=
  match v with
  | None => d
  | Some a => if Req_dec_T a 0 then d else a
  end.

(** *** Strings: [Number.prototype.toFixed(2)] and [String.prototype.replace] *)

Open Scope string_scope.

Definition digit (n : Z) : string :=
  NilZero.string_of_uint (N.to_uint (Z.to_N n)).

(** The decimal text of [n] hundredths, [n >= 0]: [70] reads [0.70]. *)
Definition hundredths (n : Z) : string :=
  digit (n / 100) ++ "." ++ digit (n / 10 mod 10) ++ digit (n mod 10).

(** [v.toFixed(2)]: the nearest multiple of 1/100, the larger one on a
    tie, written with two decimals; a negative [v] is written as [-] and
    the text of [-v].  (The exponent form above 1e21 is not modelled.) *)
Definition toFixed2 (v : R) : string :=
  if Rlt_dec v 0
  then "-" ++ hundredths (Int_part (- v * 100 + / 2))
  else hundredths (Int_part (v * 100 + / 2)).

(** [s.replace(pat, rep)] with a string pattern: the first occurrence
    only. *)
Fixpoint replace (pat rep s : string) : string :=
  if prefix pat s
  then rep ++ substring (String.length pat) (String.length s - String.length pat) s
  else match s with
       | EmptyString => EmptyString
       | String c s' => String c (replace pat rep s')
       end.

Close Scope string_scope.

(** *** The canvas and its 2D context *)

Record Canvas := {
  width : R;
  height : R;
  style_width : option R;   (* in px *)
  style_height : option R   (* in px *)
}.

(** A canvas element before the script touches it. *)
Definition blank_canvas : Canvas :=
  {| width := 300; height := 150; style_width := None; style_height := None |}.

Record RadialGradient := {
  g_x0 : R; g_y0 : R; g_r0 : R;
  g_x1 : R; g_y1 : R; g_r1 : R;
  g_stops : list (R * string)
}.

Definition createRadialGradient (x0 y0 r0 x1 y1 r1 : R) : RadialGradient :=
  {| g_x0 := x0; g_y0 := y0; g_r0 := r0;
     g_x1 := x1; g_y1 := y1; g_r1 := r1; g_stops := [] |}.

Definition addColorStop (offset : R) (c : string) (g : RadialGradient) : RadialGradient :=
  {| g_x0 := g_x0 g; g_y0 := g_y0 g; g_r0 := g_r0 g;
     g_x1 := g_x1 g; g_y1 := g_y1 g; g_r1 := g_r1 g;
     g_stops := g_stops g ++ [(offset, c)] |}.

Inductive Style :=
| Color (c : string)
| Gradient (g : RadialGradient).

(** One call on the context, or one assignment to a property of it. *)
Inductive Call :=
| SetTransform (a b c d e f : R)
| Scale (sx sy : R)
| ClearRect (px py w h : R)
| SetFillStyle (st : Style)
| FillRect (px py w h : R)
| BeginPath
| Arc (cx cy rad a0 a1 : R)
| SetShadowBlur (v : R)
| SetShadowColor (c : string)
| Fill.

(** The transform of a context: the point [(px, py)] of user space is the
    point [(m_a*px + m_c*py + m_e, m_b*px + m_d*py + m_f)] of the backing
    store. *)
Record Matrix := {
  m_a : R; m_b : R; m_c : R; m_d : R; m_e : R; m_f : R
}.

Definition identity : Matrix :=
  {| m_a := 1; m_b := 0; m_c := 0; m_d := 1; m_e := 0; m_f := 0 |}.

Definition apply_call (m : Matrix) (c : Call) : Matrix :=
  match c with
  | SetTransform a b c d e f =>
      {| m_a := a; m_b := b; m_c := c; m_d := d; m_e := e; m_f := f |}
  | Scale sx sy =>
      {| m_a := m_a m * sx; m_b := m_b m * sx;
         m_c := m_c m * sy; m_d := m_d m * sy;
         m_e := m_e m; m_f := m_f m |}
  | _ => m
  end.

(** The transform in force after the calls [cs]. *)
Definition current_transform (cs : list Call) : Matrix :=
  fold_left apply_call cs identity.

Definition to_device (m : Matrix) (p : R * R) : R * R :=
  (m_a m * fst p + m_c m * snd p + m_e m,
   m_b m * fst p + m_d m * snd p + m_f m).

(** ** The script *)

Record Layer := {
  count : nat;
  size : R * R;
  speed : R * R;
  color : string
}.

Record Star := {
  x : R;
  y : R;
  r : R;
  spd : R;
  hue : string;
  tw : R;
  t : R
}.

Record Engine := {
  dpr : R;
  vw : R;
  vh : R;
  cw : R;
  ch : R;
  canvas : Canvas;
  ctx : list Call;
  stars : list Star;
  last : R;
  raf : nat          (* calls of requestAnimationFrame(draw) so far *)
}.

(** [const dpr = Math.max(1, Math.min(2, window.devicePixelRatio || 1))] *)
Definition dpr_of (win : Window) : R :=
  Math.max 1 (Math.min 2 (or_default (devicePixelRatio win) 1)).

(** [function resize()] *)
Definition resize (win : Window) (e : Engine) : Engine :=
  let vw' := innerWidth win in
  let vh' := innerHeight win in
  let cw' := Math.floor (vw' * dpr e) in
  let ch' := Math.floor (vh' * dpr e) in
  {| dpr := dpr e;
     vw := vw'; vh := vh'; cw := cw'; ch := ch';
     canvas := {| width := cw'; height := ch';
                  style_width := Some vw'; style_height := Some vh' |};
     ctx := ctx e ++ [SetTransform 1 0 0 1 0 0; Scale (dpr e) (dpr e)];
     stars := stars e;
     last := last e;
     raf := raf e |}.

(** [function rand(min, max)] *)
Definition rand (lo hi : R) (g : Math.Rng) : R * Math.Rng :=
  let (u, g') := Math.random g in (u * (hi - lo) + lo, g').

Definition layers : list Layer :=
  [ {| count := 80; size := (1, 1.6); speed := (10, 18);
       color := "rgba(154,223,255,0.55)" |};
    {| count := 60; size := (1.2, 2.2); speed := (18, 30);
       color := "rgba(255,243,170,0.55)" |};
    {| count := 40; size := (1.6, 2.8); speed := (30, 48);
       color := "rgba(177,140,255,0.55)" |} ].

(** The object literal pushed at lines 38-46; its properties are
    evaluated in the order they are written. *)
Definition new_star (layer : Layer) (vw0 vh0 : R) (g : Math.Rng) : Star * Math.Rng :=
  let (x0, g) := rand 0 vw0 g in
  let (y0, g) := rand 0 vh0 g in
  let (r0, g) := rand (fst (size layer)) (snd (size layer)) g in
  let (spd0, g) := rand (fst (speed layer)) (snd (speed layer)) g in
  let (tw0, g) := rand 0.6 1.0 g in
  let (t0, g) := rand 0 (Math.PI * 2) g in
  ({| x := x0; y := y0; r := r0; spd := spd0;
      hue := color layer; tw := tw0; t := t0 |}, g).

(** [for (let i = 0; i < layer.count; i++) stars.push(...)], with [n]
    iterations left. *)
Fixpoint push_stars (n : nat) (layer : Layer) (vw0 vh0 : R)
    (acc : list Star) (g : Math.Rng) : list Star * Math.Rng :=
  match n with
  | O => (acc, g)
  | S n' =>
      let (s, g') := new_star layer vw0 vh0 g in
      push_stars n' layer vw0 vh0 (acc ++ [s]) g'
  end.

(** [for (const layer of layers) ...] *)
Fixpoint build_stars (ls : list Layer) (vw0 vh0 : R)
    (acc : list Star) (g : Math.Rng) : list Star * Math.Rng :=
  match ls with
  | [] => (acc, g)
  | layer :: ls' =>
      let (acc', g') := push_stars (count layer) layer vw0 vh0 acc g in
      build_stars ls' vw0 vh0 acc' g'
  end.

(** Assignments to one property of a star object. *)
Definition set_x (v : R) (s : Star) : Star :=
  {| x := v; y := y s; r := r s; spd := spd s; hue := hue s; tw := tw s; t := t s |}.
Definition set_y (v : R) (s : Star) : Star :=
  {| x := x s; y := v; r := r s; spd := spd s; hue := hue s; tw := tw s; t := t s |}.
Definition set_t (v : R) (s : Star) : Star :=
  {| x := x s; y := y s; r := r s; spd := spd s; hue := hue s; tw := tw s; t := v |}.

(** Lines 65-67: [s.x -= s.spd * dt * 0.6; s.y += s.spd * dt * 0.4;
    s.t += dt * 4]. *)
Definition drift (dt : R) (s : Star) : Star :=
  let s := set_x (x s - spd s * dt * 0.6) s in
  let s := set_y (y s + spd s * dt * 0.4) s in
  set_t (t s + dt * 4) s.

(** Line 68: [0.7 + Math.sin(s.t) * 0.3]. *)
Definition alpha (phase : R) : R := 0.7 + Math.sin phase * 0.3.

(** Line 74: the number that is formatted into the colour,
    [0.35 + alpha * 0.35]. *)
Definition fill_alpha (a : R) : R := 0.35 + a * 0.35.

(** Lines 69-70: [if (s.x < -10) s.x = vw + 10; if (s.y > vh + 10)
    s.y = -10]. *)
Definition wrap (vw0 vh0 : R) (s : Star) : Star :=
  let s := if Rlt_dec (x s) (-10) then set_x (vw0 + 10) s else s in
  if Rgt_dec (y s) (vh0 + 10) then set_y (-10) s else s.

(** What one iteration of the loop of lines 64-79 leaves in the star. *)
Definition advance_star (dt vw0 vh0 : R) (s : Star) : Star :=
  wrap vw0 vh0 (drift dt s).

(** Lines 72-78: the calls that paint one star whose twinkle is [a]. *)
Definition paint (a : R) (s : Star) : list Call :=
  [ BeginPath;
    Arc (x s) (y s) (r s) 0 (Math.PI * 2);
    SetFillStyle (Color (replace "0.55" (toFixed2 (fill_alpha a)) (hue s)));
    SetShadowBlur 8;
    SetShadowColor "#9adfff";
    Fill;
    SetShadowBlur 0 ].

(** One iteration of [for (const s of stars)]: the star as it is left,
    and the calls made. *)
Definition star_body (dt vw0 vh0 : R) (s : Star) : Star * list Call :=
  let s := drift dt s in
  let a := alpha (t s) in
  let s := wrap vw0 vh0 s in
  (s, paint a s).

(** [for (const s of stars) { ... }] *)
Fixpoint for_stars (dt vw0 vh0 : R) (ss : list Star) : list Star * list Call :=
  match ss with
  | [] => ([], [])
  | s :: rest =>
      let (s', cs) := star_body dt vw0 vh0 s in
      let (rest', cs') := for_stars dt vw0 vh0 rest in
      (s' :: rest', cs ++ cs')
  end.

(** The simulation step: the pool after the loop has run with [dt]. *)
Definition advance (dt vw0 vh0 : R) (ss : list Star) : list Star :=
  fst (for_stars dt vw0 vh0 ss).

(** The pool after one step for each [dt] of [dts], in order, on a
    surface that keeps its size. *)
Definition simulate (dts : list R) (vw0 vh0 : R) (ss : list Star) : list Star :=
  fold_left (fun acc dt => advance dt vw0 vh0 acc) dts ss.

(** Line 52: [Math.min(0.04, (now - last) / 1000)]. *)
Definition frame_dt (now last0 : R) : R :=
  Math.min 0.04 ((now - last0) / 1000).

(** Lines 57-59: the vignette. *)
Definition vignette (vw0 vh0 : R) : RadialGradient :=
  let grd := createRadialGradient (vw0 / 2) (vh0 / 2) (Math.min vw0 vh0 * 0.1)
                                  (vw0 / 2) (vh0 / 2) (Math.max vw0 vh0) in
  let grd := addColorStop 0 "rgba(6,12,22,0)" grd in
  addColorStop 1 "rgba(3,6,14,0.6)" grd.

(** [function draw(now)] *)
Definition draw (now : R) (e : Engine) : Engine :=
  let dt := frame_dt now (last e) in
  let (ss, cs) := for_stars dt (vw e) (vh e) (stars e) in
  {| dpr := dpr e;
     vw := vw e; vh := vh e; cw := cw e; ch := ch e;
     canvas := canvas e;
     ctx := ctx e
            ++ [ ClearRect 0 0 (vw e) (vh e);
                 SetFillStyle (Gradient (vignette (vw e) (vh e)));
                 FillRect 0 0 (vw e) (vh e) ]
            ++ cs;
     stars := ss;
     last := now;
     raf := S (raf e) |}.

(** The engine before the first statement of the script has run. *)
Definition boot (win : Window) : Engine :=
  {| dpr := dpr_of win;
     vw := 0; vh := 0; cw := 0; ch := 0;
     canvas := blank_canvas;
     ctx := [];
     stars := [];
     last := 0;
     raf := 0%nat |}.

(** Lines 5-50 and 83: the script up to its first request for a frame.
    [now0] is what [performance.now()] returns at line 50. *)
Definition init (win : Window) (g : Math.Rng) (now0 : R) : Engine :=
  let e := resize win (boot win) in
  let (ss, _) := build_stars layers (vw e) (vh e) (stars e) g in
  {| dpr := dpr e;
     vw := vw e; vh := vh e; cw := cw e; ch := ch e;
     canvas := canvas e;
     ctx := ctx e;
     stars := ss;
     last := now0;
     raf := S (raf e) |}.

(** What the host may deliver afterwards: a resize of the window, or the
    frame that was requested. *)
Inductive Event :=
| OnResize (win : Window)
| OnFrame (now : R).

Definition handle (e : Engine) (ev : Event) : Engine :=
  match ev with
  | OnResize win => resize win e
  | OnFrame now => draw now e
  end.

Definition run (evs : list Event) (e : Engine) : Engine :=
  fold_left handle evs e.

(** ** Predicates of the specification *)

(** The logical bounds of the surface. *)
Definition in_surface (vw0 vh0 : R) (s : Star) : Prop :=
  0 <= x s <= vw0 /\ 0 <= y s <= vh0.

(** The expanded bounding box. *)
Definition in_box (vw0 vh0 : R) (s : Star) : Prop :=
  -10 <= x s <= vw0 + 10 /\ -10 <= y s <= vh0 + 10.

(** The properties of a star that are fixed when it is created. *)
Definition fixed_part (s : Star) : R * R * string * R :=
  (r s, spd s, hue s, tw s).

(** A wrap fires in the step of [s] by [dt]: one of the two tests of
    lines 69-70 succeeds. *)
Definition wraps (dt vh0 : R) (s : Star) : Prop :=
  x (drift dt s) < -10 \/ y (drift dt s) > vh0 + 10.

(** No wrap fires in any of [n] successive steps by [dt], from [s]. *)
Fixpoint wrap_free (n : nat) (dt vw0 vh0 : R) (s : Star) : Prop :=
  match n with
  | O => True
  | S n' => ~ wraps dt vh0 s /\ wrap_free n' dt vw0 vh0 (advance_star dt vw0 vh0 s)
  end.

(** [n] successive steps of one star by [dt]. *)
Fixpoint steps (n : nat) (dt vw0 vh0 : R) (s : Star) : Star :=
  match n with
  | O => s
  | S n' => steps n' dt vw0 vh0 (advance_star dt vw0 vh0 s)
  end.

(** The contract of [Math.random]: every number lies in [[0, 1)]. *)
Definition rng_ok (g : Math.Rng) : Prop := forall n, 0 <= g n < 1.

(** A layer whose speed range is an interval of non-negative numbers. *)
Definition layer_ok (l : Layer) : Prop :=
  0 <= fst (speed l) <= snd (speed l).

(** A star inside the logical bounds that does not move backwards. *)
Definition star_ok (vw0 vh0 : R) (s : Star) : Prop :=
  in_surface vw0 vh0 s /\ 0 <= spd s.

(** The transform that scales both axes by [d]. *)
Definition scaling (d : R) : Matrix :=
  {| m_a := d; m_b := 0; m_c := 0; m_d := d; m_e := 0; m_f := 0 |}.

(** A call that leaves the transform of the context as it is. *)
Definition keeps_transform (c : Call) : Prop :=
  match c with
  | SetTransform _ _ _ _ _ _ | Scale _ _ => False
  | _ => True
  end.

(** The surface is configured: the backing store has the size computed
    from the logical size, and the context scales by the pixel ratio. *)
Definition configured (e : Engine) : Prop :=
  cw e = Math.floor (vw e * dpr e) /\
  ch e = Math.floor (vh e * dpr e) /\
  width (canvas e) = cw e /\
  height (canvas e) = ch e /\
  style_width (canvas e) = Some (vw e) /\
  style_height (canvas e) = Some (vh e) /\
  current_transform (ctx e) = scaling (dpr e).

(** Timestamps that never go back, starting from [from]. *)
Fixpoint nondecreasing (from : R) (nows : list R) : Prop :=
  match nows with
  | [] => True
  | now :: rest => from <= now /\ nondecreasing now rest
  end.

(** [clamp(v, lo, hi)] as the specification uses it. *)
Definition clamp (v lo hi : R) : R := Rmax lo (Rmin hi v).

(** The frame clock in the words of the specification, the elapsed time
    taken in seconds: [clamp(now - last, 0, 0.04)]. *)
Definition spec_dt (now last0 : R) : R := clamp ((now - last0) / 1000) 0 0.04.

(** [round(v)] in the words of the specification: the nearest integer,
    the larger one on a tie. *)
Definition spec_round (v : R) : R := IZR (Int_part (v + / 2)).

(** ** The phase on rounded numbers *)







(** ** Sample stars *)


(** A star of the near layer in the middle of an 800 x 600 surface. *)
Definition centred : Star :=
  {| x := 400; y := 300; r := 1.2; spd := 12;
     hue := "rgba(154,223,255,0.55)"; tw := 0.7; t := 1 |}.

(** A star of the middle layer on the corner of the box of an 800 x 600
    surface. *)
Definition corner : Star :=
  {| x := -10; y := 610; r := 1.5; spd := 20;
     hue := "rgba(255,243,170,0.55)"; tw := 0.9; t := 2 |}.

(** ** A sample host *)

(** An 800 x 600 window on a display of pixel ratio 1.5. *)
Definition sample_window : Window :=
  {| innerWidth := 800; innerHeight := 600; devicePixelRatio := Some 1.5 |}.

(** A random stream that always answers 1/2. *)
Definition sample_rng : Math.Rng := fun _ => / 2.

(** The same window after the user has enlarged it to 1200 x 900. *)
Definition enlarged_window : Window :=
  {| innerWidth := 1200; innerHeight := 900; devicePixelRatio := Some 1.5 |}.

(** An 801 x 601 window seen at a zoom of 175%. *)
Definition zoomed_window : Window :=
  {| innerWidth := 801; innerHeight := 601; devicePixelRatio := Some 1.75 |}.

(** ** What the calls paint *)

(** The drawing state of a context. *)
Record Pen := {
  pen_matrix : Matrix;
  pen_fill : Style;
  pen_blur : R;
  pen_glow : string;
  pen_path : list (Matrix * (R * R * R * R * R))
}.

(** A context that no call has touched. *)
Definition fresh_pen : Pen :=
  {| pen_matrix := identity; pen_fill := Color "#000000";
     pen_blur := 0; pen_glow := "rgba(0, 0, 0, 0)"; pen_path := [] |}.

(** What one call puts on the bitmap: a cleared rectangle, a filled
    rectangle, or a filled path, each with the state it is painted in. *)
Inductive Mark :=
| Cleared (m : Matrix) (px py w h : R)
| Rect (m : Matrix) (st : Style) (blur : R) (px py w h : R)
| Shape (st : Style) (blur : R) (glow : string)
        (path : list (Matrix * (R * R * R * R * R))).

(** The effect of one call on the pen and on the marks made so far, in
    the order they are made (a later mark may cover an earlier one). *)
Definition paint_call (acc : Pen * list Mark) (c : Call) : Pen * list Mark :=
  let (pen, marks) := acc in
  match c with
  | SetTransform _ _ _ _ _ _ | Scale _ _ =>
      ({| pen_matrix := apply_call (pen_matrix pen) c; pen_fill := pen_fill pen;
          pen_blur := pen_blur pen; pen_glow := pen_glow pen;
          pen_path := pen_path pen |}, marks)
  | ClearRect px py w h =>
      (pen, marks ++ [Cleared (pen_matrix pen) px py w h])
  | SetFillStyle st =>
      ({| pen_matrix := pen_matrix pen; pen_fill := st;
          pen_blur := pen_blur pen; pen_glow := pen_glow pen;
          pen_path := pen_path pen |}, marks)
  | FillRect px py w h =>
      (pen, marks ++ [Rect (pen_matrix pen) (pen_fill pen) (pen_blur pen) px py w h])
  | BeginPath =>
      ({| pen_matrix := pen_matrix pen; pen_fill := pen_fill pen;
          pen_blur := pen_blur pen; pen_glow := pen_glow pen;
          pen_path := [] |}, marks)
  | Arc cx cy rad a0 a1 =>
      ({| pen_matrix := pen_matrix pen; pen_fill := pen_fill pen;
          pen_blur := pen_blur pen; pen_glow := pen_glow pen;
          pen_path := pen_path pen ++ [(pen_matrix pen, (cx, cy, rad, a0, a1))] |},
       marks)
  | SetShadowBlur v =>
      ({| pen_matrix := pen_matrix pen; pen_fill := pen_fill pen;
          pen_blur := v; pen_glow := pen_glow pen;
          pen_path := pen_path pen |}, marks)
  | SetShadowColor col =>
      ({| pen_matrix := pen_matrix pen; pen_fill := pen_fill pen;
          pen_blur := pen_blur pen; pen_glow := col;
          pen_path := pen_path pen |}, marks)
  | Fill =>
      (pen, marks ++ [Shape (pen_fill pen) (pen_blur pen) (pen_glow pen) (pen_path pen)])
  end.

Definition painted (cs : list Call) : Pen * list Mark :=
  fold_left paint_call cs (fresh_pen, []).

Definition pen_of (cs : list Call) : Pen := fst (painted cs).
Definition marks_of (cs : list Call) : list Mark := snd (painted cs).

(** The disc of one star as a frame paints it under the transform [m]. *)
Definition star_mark (m : Matrix) (s : Star) : Mark :=
  Shape (Color (replace "0.55" (toFixed2 (fill_alpha (alpha (t s)))) (hue s)))
        8 "#9adfff"
        [(m, (x s, y s, r s, 0, Math.PI * 2))].

(** The marks of one frame on a surface of logical size [vw0 x vh0] whose
    stars are [ss] once they have moved. *)
Definition frame_marks (m : Matrix) (vw0 vh0 : R) (ss : list Star) : list Mark :=
  Cleared m 0 0 vw0 vh0
  :: Rect m (Gradient (vignette vw0 vh0)) 0 0 0 vw0 vh0
  :: map (star_mark m) ss.

(** A star that a layer can produce on a [vw0 x vh0] surface. *)
Definition of_layer (vw0 vh0 : R) (l : Layer) (s : Star) : Prop :=
  0 <= x s <= vw0 /\ 0 <= y s <= vh0 /\
  fst (size l) <= r s <= snd (size l) /\
  fst (speed l) <= spd s <= snd (speed l) /\
  hue s = color l /\
  0.6 <= tw s <= 1 /\
  0 <= t s <= Math.PI * 2.

(** The frames among the events. *)
Fixpoint frames (evs : list Event) : nat :=
  match evs with
  | [] => O
  | OnFrame _ :: rest => S (frames rest)
  | OnResize _ :: rest => frames rest
  end.

(** Events as a host delivers them: the frames carry timestamps that
    never go back, starting from [from], and a window has no negative
    size. *)
Fixpoint orderly (from : R) (evs : list Event) : Prop :=
  match evs with
  | [] => True
  | OnFrame now :: rest => from <= now /\ orderly now rest
  | OnResize win :: rest =>
      0 <= innerWidth win /\ 0 <= innerHeight win /\ orderly from rest
  end.

(** A layer whose two ranges are intervals. *)
Definition layer_wf (l : Layer) : Prop :=
  fst (size l) <= snd (size l) /\ fst (speed l) <= snd (speed l).

(** The pool [ss] is made of one run of stars per layer of [ls], in the
    order of [ls], each run as long as the layer says. *)
Fixpoint grouped (vw0 vh0 : R) (ls : list Layer) (ss : list Star) : Prop :=
  match ls with
  | [] => ss = []
  | l :: ls' =>
      exists run_l rest,
        ss = run_l ++ rest /\
        List.length run_l = count l /\
        Forall (of_layer vw0 vh0 l) run_l /\
        grouped vw0 vh0 ls' rest
  end.

(** The star agrees with one of the layers in tint, size and speed. *)
Definition in_some_layer (s : Star) : Prop :=
  exists l, In l layers /\ hue s = color l /\
            fst (size l) <= r s <= snd (size l) /\
            fst (speed l) <= spd s <= snd (speed l).

(** ** The page around the canvas (lines 85-209) *)

(** [Math.round]: the nearest integer, the larger one on a tie. *)
Definition Math_round (v : R) : R := Math.floor (v + / 2).

(** [arr[k]] for a [k] that [Math.floor] produced: [None] stands for
    [undefined]. *)
Definition nth_Z {A : Type} (l : list A) (k : Z) : option A :=
  if (k <? 0)%Z then None else nth_error l (Z.to_nat k).

(** [arr[Math.floor(Math.random() * arr.length)]], given the number [u]
    that [Math.random()] returned. *)
Definition pick {A : Type} (l : list A) (u : R) : option A :=
  nth_Z l (Int_part (u * INR (List.length l))).

Open Scope string_scope.

(** The decimal text of [n] tenths, [n >= 0]. *)
Definition tenths (n : Z) : string :=
  digit (n / 10) ++ "." ++ digit (n mod 10).

(** [v.toFixed(1)], as [toFixed2]. *)
Definition toFixed1 (v : R) : string :=
  if Rlt_dec v 0
  then "-" ++ tenths (Int_part (- v * 10 + / 2))
  else tenths (Int_part (v * 10 + / 2)).

(** [String(n)] for an integer [n] (below 1e21 in size). *)
Definition decimal (n : Z) : string :=
  if (n <? 0)%Z then "-" ++ digit (- n) else digit n.

Fixpoint fill (k : nat) (c : ascii) : string :=
  match k with
  | O => EmptyString
  | S k' => String c (fill k' c)
  end.

(** [s.padStart(len, c)] for a filler of one character. *)
Definition padStart (s : string) (len : nat) (c : ascii) : string :=
  fill (len - String.length s) c ++ s.

(** [function pad(n, len)] *)
Definition pad (n : Z) (len : nat) : string := padStart (decimal n) len "0".

Definition is_digit (c : ascii) : bool :=
  match uint_of_char c (Some Decimal.Nil) with
  | Some _ => true
  | None => false
  end.

(** The white space of ASCII: tab, line feed, vertical tab, form feed,
    carriage return and space. *)
Definition is_space (c : ascii) : bool :=
  let n := N_of_ascii c in
  ((n =? 32)%N || ((9 <=? n)%N && (n <=? 13)%N))%bool.

Fixpoint skip_spaces (s : string) : string :=
  match s with
  | String c s' => if is_space c then skip_spaces s' else s
  | EmptyString => EmptyString
  end.

Fixpoint digits_prefix (s : string) : string :=
  match s with
  | String c s' => if is_digit c then String c (digits_prefix s') else EmptyString
  | EmptyString => EmptyString
  end.

(** The value of the digits that [s] starts with; [None] when it starts
    with none. *)
Definition parse_digits (s : string) : option Z :=
  option_map (fun d => Z.of_N (N.of_uint d))
             (NilZero.uint_of_string (digits_prefix s)).

(** [parseInt(s, 10)]: leading white space, a sign, then the digits up to
    the first character that is not one; [None] stands for [NaN].  (White
    space outside ASCII is not recognised.) *)
Definition parseInt (s : string) : option Z :=
  match skip_spaces s with
  | String "-" s' => option_map Z.opp (parse_digits s')
  | String "+" s' => parse_digits s'
  | s' => parse_digits s'
  end.

(** The UTF-16 code units that the character starting with the byte [c]
    takes, in a text held as UTF-8: one for a character of up to three
    bytes, two for a character of four bytes, none for a continuation
    byte. *)
Definition utf16_units (c : ascii) : nat :=
  let n := N_of_ascii c in
  if (n <? 128)%N then 1%nat
  else if (n <? 192)%N then 0%nat
  else if (n <? 240)%N then 1%nat
  else 2%nat.

(** [s.length]: the length of [s] in UTF-16 code units. *)
Fixpoint utf16_length (s : string) : nat :=
  match s with
  | EmptyString => O
  | String c s' => (utf16_units c + utf16_length s')%nat
  end.

(** [s || d] on strings: the empty string is falsy. *)
Definition text_or (s d : string) : string :=
  match s with
  | EmptyString => d
  | _ => s
  end.

(** [n || d] on a length. *)
Definition nat_or (n d : nat) : nat :=
  match n with
  | O => d
  | _ => n
  end.

(** [v || d] on the result of [parseInt]: [NaN] and [0] are falsy. *)
Definition Z_or (v : option Z) (d : Z) : Z :=
  match v with
  | None => d
  | Some 0%Z => d
  | Some a => a
  end.

(** An element that the script has appended to the stage. *)
Inductive Node :=
| SparkleDiv (left_px top_px : R)
| ConfettiSpan (text : string) (left_px top_px fontSize : R)
               (flight : option (R * R)) (opacity : option R)
| FlashDiv (opacity : R)
| StickerDiv (text : string) (left_px top_px fontSize : R) (rotate : string).

(** A callback handed to [setTimeout]. *)
Inductive Task :=
| Remove (el : nat)          (* () => el.remove() *)
| Fade (el : nat)            (* () => el.style.opacity = '0' *)
| Grant                      (* the callback of lines 125-133 *)
| Hide                       (* the callback of lines 134-136 *)
| Restore (old : string).    (* () => { banner.textContent = old; } *)

(** The callback that [confetti] hands to [requestAnimationFrame]. *)
Record Fly := {
  fly_el : nat;
  fly_angle : R;
  fly_dist : R
}.

Record Page := {
  engine : Engine;
  rng : Math.Rng;
  stage : list (nat * Node);      (* the appended children, oldest first *)
  fresh : nat;                    (* the next element to be created *)
  timers : list (R * Task);       (* pending timeouts with the time they are due *)
  flights : list Fly;             (* pending frame callbacks of the confetti *)
  lastSparkle : R;
  hits : option string;           (* [hits.textContent], if [#hits] exists *)
  val : Z;
  login : option (bool * string); (* overlay shown?, [accessText.textContent] *)
  banner : option string          (* [banner.textContent], if it exists *)
}.

Definition with_engine (e : Engine) (p : Page) : Page :=
  {| engine := e; rng := rng p; stage := stage p; fresh := fresh p;
     timers := timers p; flights := flights p; lastSparkle := lastSparkle p;
     hits := hits p; val := val p; login := login p; banner := banner p |}.

Definition with_rng (g : Math.Rng) (p : Page) : Page :=
  {| engine := engine p; rng := g; stage := stage p; fresh := fresh p;
     timers := timers p; flights := flights p; lastSparkle := lastSparkle p;
     hits := hits p; val := val p; login := login p; banner := banner p |}.

Definition with_stage (st : list (nat * Node)) (p : Page) : Page :=
  {| engine := engine p; rng := rng p; stage := st; fresh := fresh p;
     timers := timers p; flights := flights p; lastSparkle := lastSparkle p;
     hits := hits p; val := val p; login := login p; banner := banner p |}.

Definition with_timers (ts : list (R * Task)) (p : Page) : Page :=
  {| engine := engine p; rng := rng p; stage := stage p; fresh := fresh p;
     timers := ts; flights := flights p; lastSparkle := lastSparkle p;
     hits := hits p; val := val p; login := login p; banner := banner p |}.

Definition with_flights (fs : list Fly) (p : Page) : Page :=
  {| engine := engine p; rng := rng p; stage := stage p; fresh := fresh p;
     timers := timers p; flights := fs; lastSparkle := lastSparkle p;
     hits := hits p; val := val p; login := login p; banner := banner p |}.

Definition with_lastSparkle (v : R) (p : Page) : Page :=
  {| engine := engine p; rng := rng p; stage := stage p; fresh := fresh p;
     timers := timers p; flights := flights p; lastSparkle := v;
     hits := hits p; val := val p; login := login p; banner := banner p |}.

Definition with_hits (text : string) (v : Z) (p : Page) : Page :=
  {| engine := engine p; rng := rng p; stage := stage p; fresh := fresh p;
     timers := timers p; flights := flights p; lastSparkle := lastSparkle p;
     hits := Some text; val := v; login := login p; banner := banner p |}.

Definition with_login (l : option (bool * string)) (p : Page) : Page :=
  {| engine := engine p; rng := rng p; stage := stage p; fresh := fresh p;
     timers := timers p; flights := flights p; lastSparkle := lastSparkle p;
     hits := hits p; val := val p; login := l; banner := banner p |}.

Definition with_banner (b : option string) (p : Page) : Page :=
  {| engine := engine p; rng := rng p; stage := stage p; fresh := fresh p;
     timers := timers p; flights := flights p; lastSparkle := lastSparkle p;
     hits := hits p; val := val p; login := login p; banner := b |}.

(** [document.createElement] followed by [stage.appendChild]: the new
    element is [fresh p]. *)
Definition appendChild (n : Node) (p : Page) : Page :=
  {| engine := engine p; rng := rng p;
     stage := stage p ++ [(fresh p, n)]; fresh := S (fresh p);
     timers := timers p; flights := flights p; lastSparkle := lastSparkle p;
     hits := hits p; val := val p; login := login p; banner := banner p |}.

(** [setTimeout(task, delay)] called at a time [due - delay]. *)
Definition setTimeout (due : R) (task : Task) (p : Page) : Page :=
  with_timers (timers p ++ [(due, task)]) p.

(** [el.remove()]: nothing happens when [el] is no longer on the stage. *)
Definition remove_el (el : nat) (p : Page) : Page :=
  with_stage (filter (fun n => negb (Nat.eqb (fst n) el)) (stage p)) p.

(** An assignment to the style of [el]. *)
Definition restyle (el : nat) (f : Node -> Node) (p : Page) : Page :=
  with_stage (map (fun n => if Nat.eqb (fst n) el then (fst n, f (snd n)) else n)
                  (stage p)) p.

Definition find_el (el : nat) (p : Page) : option Node :=
  option_map snd (find (fun n => Nat.eqb (fst n) el) (stage p)).

(** [function sparkle(x, y)], called at time [tm]. *)
Definition sparkle (tm px py : R) (p : Page) : Page :=
  let el := fresh p in
  let p := appendChild (SparkleDiv px py) p in
  setTimeout (tm + 900) (Remove el) p.

(** The [mousemove] listener of the stage (lines 96-102); [tm] is what
    [performance.now()] returns. *)
Definition on_mousemove (tm clientX clientY : R) (p : Page) : Page :=
  if Rgt_dec (tm - lastSparkle p) 40
  then with_lastSparkle tm (sparkle tm clientX clientY p)
  else p.

(** A click inside the stage.  When its target is a sticker, the listener
    of the sticker (line 192) runs first; the click then reaches the
    listener of the stage (line 103). *)
Definition on_click (tm : R) (target : option nat) (clientX clientY : R)
    (p : Page) : Page :=
  let p := match target with
           | Some el =>
               match find_el el p with
               | Some (StickerDiv _ _ _ _ _) => remove_el el p
               | _ => p
               end
           | None => p
           end in
  sparkle tm clientX clientY p.

(** The callback of [setInterval] (lines 110-113); it is registered only
    when [#hits] exists. *)
Definition on_interval (p : Page) : Page :=
  match hits p with
  | None => p
  | Some text =>
      let (v, g) := rand 1 4 (rng p) in
      let val' := (val p + Int_part v)%Z in
      with_hits (pad val' (nat_or (utf16_length (text_or text "")) 6)) val'
                (with_rng g p)
  end.

(** The [submit] listener (lines 121-137); it is registered only when the
    form, the overlay and the access text exist. *)
Definition on_submit (tm : R) (p : Page) : Page :=
  match login p with
  | None => p
  | Some _ =>
      let p := with_login (Some (true, "VERIFYING…")) p in
      let p := setTimeout (tm + 900) Grant p in
      setTimeout (tm + 2400) Hide p
  end.

(** The loop of lines 128-132, with [k] iterations left and [i] the
    loop variable. *)
Fixpoint burst (k i : nat) (tm : R) (p : Page) : Page :=
  match k with
  | O => p
  | S k' =>
      let (jx, g) := rand (-20) 20 (rng p) in
      let px := vw (engine p) * 0.5 + cos (INR i / 14 * Math.PI * 2) * 160 + jx in
      let (jy, g) := rand (-12) 12 g in
      let py := vh (engine p) * 0.5 + Math.sin (INR i / 14 * Math.PI * 2) * 80 + jy in
      burst k' (S i) tm (sparkle tm px py (with_rng g p))
  end.

Inductive Key := K_confetti | K_neonFlash | K_sticker | K_bannerSwap.

(** [Object.keys(surprises)]: the keys in the order they are written. *)
Definition keys : list Key := [K_confetti; K_neonFlash; K_sticker; K_bannerSwap].

Definition emojis : list string := ["✨"; "💫"; "🌟"; "🪐"; "🚀"; "⭐"].

Definition stickers : list string := ["🛰️"; "💾"; "📟"; "📡"; "🧪"; "🎛️"].

Definition ultra_rare : string := "★ 恭喜！你发现了隐藏彩蛋 · ULTRA RARE ★".

(** [textContent = arr[...]]: [undefined] is written as the empty
    string. *)
Definition text_of (v : option string) : string :=
  match v with
  | Some s => s
  | None => EmptyString
  end.

(** The loop of [surprises.confetti] (lines 147-164), with [k] iterations
    left. *)
Fixpoint confetti_loop (k : nat) (tm : R) (p : Page) : Page :=
  match k with
  | O => p
  | S k' =>
      let el := fresh p in
      let (u, g) := Math.random (rng p) in
      let text := text_of (pick emojis u) in
      let (u, g) := Math.random g in
      let fontSize := 18 + u * 18 in
      let p := appendChild (ConfettiSpan text (vw (engine p) / 2)
                                         (vh (engine p) / 2 - 40) fontSize
                                         None None) p in
      let (u, g) := Math.random g in
      let angle := u * Math.PI * 2 in
      let (u, g) := Math.random g in
      let dist := 160 + u * 160 in
      let p := with_flights (flights p ++ [{| fly_el := el; fly_angle := angle;
                                              fly_dist := dist |}]) p in
      let p := setTimeout (tm + 1000) (Remove el) p in
      confetti_loop k' tm (with_rng g p)
  end.

Definition confetti (tm : R) (p : Page) : Page := confetti_loop 28 tm p.

(** [surprises.neonFlash] (lines 166-178) *)
Definition neonFlash (tm : R) (p : Page) : Page :=
  let el := fresh p in
  let p := appendChild (FlashDiv 1) p in
  let p := setTimeout (tm + 40) (Fade el) p in
  setTimeout (tm + 700) (Remove el) p.

(** [surprises.sticker] (lines 179-194) *)
Definition sticker (tm : R) (p : Page) : Page :=
  let el := fresh p in
  let (u, g) := Math.random (rng p) in
  let text := text_of (pick stickers u) in
  let (u, g) := Math.random g in
  let left_px := Math_round (u * (vw (engine p) - 80) + 40) in
  let (u, g) := Math.random g in
  let top_px := Math_round (u * (vh (engine p) - 80) + 40) in
  let (u, g) := Math.random g in
  let fontSize := 40 + u * 24 in
  let (u, g) := Math.random g in
  let rotate := toFixed1 (u * 30 - 15) in
  let p := appendChild (StickerDiv text left_px top_px fontSize rotate) p in
  let p := setTimeout (tm + 12000) (Remove el) p in
  with_rng g p.

(** [surprises.bannerSwap] (lines 195-201) *)
Definition bannerSwap (tm : R) (p : Page) : Page :=
  match banner p with
  | None => p
  | Some old =>
      let p := with_banner (Some ultra_rare) p in
      setTimeout (tm + 3600) (Restore old) p
  end.

Definition surprise (k : Key) (tm : R) (p : Page) : Page :=
  match k with
  | K_confetti => confetti tm p
  | K_neonFlash => neonFlash tm p
  | K_sticker => sticker tm p
  | K_bannerSwap => bannerSwap tm p
  end.

(** The [click] listener of the gacha button (lines 204-208).  Calling
    [undefined] would throw: the page is then left as it is. *)
Definition on_gacha (tm : R) (p : Page) : Page :=
  let (u, g) := Math.random (rng p) in
  let p := with_rng g p in
  match pick keys u with
  | Some k => surprise k tm p
  | None => p
  end.

(** What the frame callback of a confetti span writes into its style. *)
Definition launch (f : Fly) (n : Node) : Node :=
  match n with
  | ConfettiSpan text left_px top_px fontSize _ _ =>
      ConfettiSpan text left_px top_px fontSize
                   (Some (cos (fly_angle f) * fly_dist f,
                          Math.sin (fly_angle f) * fly_dist f))
                   (Some 0)
  | _ => n
  end.

Definition fade (n : Node) : Node :=
  match n with
  | FlashDiv _ => FlashDiv 0
  | _ => n
  end.

(** A timeout that is due at [tm] runs. *)
Definition run_task (tm : R) (task : Task) (p : Page) : Page :=
  match task with
  | Remove el => remove_el el p
  | Fade el => restyle el fade p
  | Grant =>
      let p := match login p with
               | Some (shown, _) => with_login (Some (shown, "ACCESS GRANTED")) p
               | None => p
               end in
      burst 14 0 tm p
  | Hide =>
      match login p with
      | Some (_, text) => with_login (Some (false, text)) p
      | None => p
      end
  | Restore old => with_banner (Some old) p
  end.

Fixpoint drop_nth {A : Type} (k : nat) (l : list A) : list A :=
  match l, k with
  | [], _ => []
  | _ :: rest, O => rest
  | a :: rest, S k' => a :: drop_nth k' rest
  end.

(** The host runs the [k]-th pending timeout, at the time it is due. *)
Definition fire (k : nat) (p : Page) : Page :=
  match nth_error (timers p) k with
  | None => p
  | Some (due, task) => run_task due task (with_timers (drop_nth k (timers p)) p)
  end.

(** The host runs the frame callbacks: [draw], then those of the
    confetti, in the order they were requested. *)
Definition on_frame (now : R) (p : Page) : Page :=
  let p := with_engine (draw now (engine p)) p in
  with_flights []
    (fold_left (fun q f => restyle (fly_el f) (launch f) q) (flights p) p).

(** What can happen to the page once the script has run. *)
Inductive Input :=
| Resized (win : Window)
| Frame (now : R)
| MouseMove (tm clientX clientY : R)
| Click (tm : R) (target : option nat) (clientX clientY : R)
| Interval
| Submit (tm : R)
| Gacha (tm : R)
| Timeout (k : nat).

Definition react (p : Page) (i : Input) : Page :=
  match i with
  | Resized win => with_engine (resize win (engine p)) p
  | Frame now => on_frame now p
  | MouseMove tm cx cy => on_mousemove tm cx cy p
  | Click tm target cx cy => on_click tm target cx cy p
  | Interval => on_interval p
  | Submit tm => on_submit tm p
  | Gacha tm => on_gacha tm p
  | Timeout k => fire k p
  end.

Definition play (inputs : list Input) (p : Page) : Page :=
  fold_left react inputs p.

(** The parts of the document that the script looks up and may not
    find. *)
Record Document := {
  doc_hits : option string;
  doc_login : option (bool * string);
  doc_banner : option string
}.

(** The page when the script has run to its end. *)
Definition start (win : Window) (g : Math.Rng) (now0 : R) (doc : Document) : Page :=
  {| engine := init win g now0;
     rng := snd (build_stars layers (innerWidth win) (innerHeight win) [] g);
     stage := [];
     fresh := O;
     timers := [];
     flights := [];
     lastSparkle := 0;
     hits := doc_hits doc;
     val := match doc_hits doc with
            | Some text => Z_or (parseInt (text_or text "0")) 0
            | None => 0%Z
            end;
     login := doc_login doc;
     banner := doc_banner doc |}.

Close Scope string_scope.

(** ** Predicates on the page *)

(** [d] with [k] zeros written before it. *)
Fixpoint zeros (k : nat) (d : Decimal.uint) : Decimal.uint :=
  match k with
  | O => d
  | S k' => Decimal.D0 (zeros k' d)
  end.

(** The [Interval] inputs among [inputs]. *)
Fixpoint intervals (inputs : list Input) : Z :=
  match inputs with
  | [] => 0%Z
  | Interval :: rest => (1 + intervals rest)%Z
  | _ :: rest => intervals rest
  end.

(** Every element on the stage has a pending timeout that removes it. *)
Definition tracked (p : Page) : Prop :=
  forall el n, In (el, n) (stage p) -> exists due, In (due, Remove el) (timers p).

(** The elements on the stage are older than the next one to be
    created. *)
Definition ids_below (p : Page) : Prop :=
  Forall (fun n => (fst n < fresh p)%nat) (stage p).

(** The overlay is not shown, or a timeout that hides it is pending. *)
Definition overlay_guarded (p : Page) : Prop :=
  match login p with
  | Some (true, _) => exists due, In (due, Hide) (timers p)
  | _ => True
  end.

(** Times more than 40 ms apart, the first more than 40 ms after
    [prev]. *)
Fixpoint spaced (prev : R) (times : list R) : Prop :=
  match times with
  | [] => True
  | tm :: rest => tm - prev > 40 /\ spaced tm rest
  end.

(** A sparkle of the burst that follows a login, around the centre of a
    [vw0 x vh0] window. *)
Definition in_burst (vw0 vh0 : R) (n : Node) : Prop :=
  match n with
  | SparkleDiv left_px top_px =>
      vw0 * 0.5 - 180 <= left_px <= vw0 * 0.5 + 180 /\
      vh0 * 0.5 - 92 <= top_px <= vh0 * 0.5 + 92
  | _ => False
  end.

(** A confetti span as [confetti] creates it in a [vw0 x vh0] window. *)
Definition fresh_confetti (vw0 vh0 : R) (n : Node) : Prop :=
  match n with
  | ConfettiSpan text left_px top_px fontSize flight opacity =>
      In text emojis /\ left_px = vw0 / 2 /\ top_px = vh0 / 2 - 40 /\
      18 <= fontSize <= 36 /\ flight = None /\ opacity = None
  | _ => False
  end.

(** A sticker as [sticker] places it in a [vw0 x vh0] window. *)
Definition placed_sticker (vw0 vh0 : R) (n : Node) : Prop :=
  match n with
  | StickerDiv text left_px top_px fontSize rotate =>
      In text stickers /\
      40 <= left_px <= vw0 - 39.5 /\ (exists k : Z, left_px = IZR k) /\
      40 <= top_px <= vh0 - 39.5 /\ (exists k : Z, top_px = IZR k) /\
      40 <= fontSize <= 64 /\
      (exists v, -15 <= v <= 15 /\ rotate = toFixed1 v)
  | _ => False
  end.

(** From [p] to [q] no pending timeout was lost, every element on the
    stage was there already or has a timeout that removes it, and the
    overlay is shown only if it was or if a timeout hides it. *)
Definition extends (p q : Page) : Prop :=
  (forall x, In x (timers p) -> In x (timers q)) /\
  (forall el n, In (el, n) (stage q) ->
                (exists n0, In (el, n0) (stage p))
                \/ exists due, In (due, Remove el) (timers q)) /\
  (forall text, login q = Some (true, text) ->
                (exists text0, login p = Some (true, text0))
                \/ exists due, In (due, Hide) (timers q)) /\
  (fresh p <= fresh q)%nat /\
  (forall el n, In (el, n) (stage q) ->
                (exists n0, In (el, n0) (stage p)) \/ (fresh p <= el < fresh q)%nat).

(** The overlay is hidden when the document is loaded. *)
Definition overlay_hidden (doc : Document) : Prop :=
  match doc_login doc with
  | Some (true, _) => False
  | _ => True
  end.

(** Of the mouse moves [ms], those that come more than 40 ms after the
    move taken before them, the first more than 40 ms after [prev]. *)
Fixpoint accepted (prev : R) (ms : list (R * R * R)) : list (R * R * R) :=
  match ms with
  | [] => []
  | m :: rest =>
      if Rgt_dec (fst (fst m) - prev) 40
      then m :: accepted (fst (fst m)) rest
      else accepted prev rest
  end.

(** The time of the last of the moves [acc], or [prev] when there is
    none. *)
Definition last_time (prev : R) (acc : list (R * R * R)) : R :=
  fold_left (fun _ m => fst (fst m)) acc prev.

(** The page [p] with one sparkle more for each of the moves [acc]: the
    sparkle sits where the pointer was and its timeout is due 900 ms
    after the move; nothing else is changed. *)
Definition after_moves (p : Page) (acc : list (R * R * R)) : Page :=
  {| engine := engine p;
     rng := rng p;
     stage := stage p
              ++ combine (seq (fresh p) (List.length acc))
                         (map (fun m => SparkleDiv (snd (fst m)) (snd m)) acc);
     fresh := (fresh p + List.length acc)%nat;
     timers := timers p
               ++ combine (map (fun m => fst (fst m) + 900) acc)
                          (map Remove (seq (fresh p) (List.length acc)));
     flights := flights p;
     lastSparkle := last_time (lastSparkle p) acc;
     hits := hits p;
     val := val p;
     login := login p;
     banner := banner p |}.

(** The mouse moves [(tm, clientX, clientY)] as inputs. *)
Definition moves (ms : list (R * R * R)) : list Input :=
  map (fun m => MouseMove (fst (fst m)) (snd (fst m)) (snd m)) ms.

(** From [p] to [q] the hit counter was not touched, and the random
    stream still keeps its contract. *)
Definition same_counter (p q : Page) : Prop :=
  hits q = hits p /\ val q = val p /\ (rng_ok (rng p) -> rng_ok (rng q)).

(** A document with a six-digit counter, a login form and a banner. *)
Definition sample_doc : Document :=
  {| doc_hits := Some "001337"%string;
     doc_login := Some (false, ""%string);
     doc_banner := Some "WELCOME"%string |}.

(** ** The loop over the pool, star by star *)

Lemma for_stars_fst dt vw0 vh0 ss :
  fst (for_stars dt vw0 vh0 ss) = map (advance_star dt vw0 vh0) ss.
Proof.
  induction ss as [|s rest IH]; simpl; [reflexivity|].
  destruct (for_stars dt vw0 vh0 rest) as [rest' cs']; simpl in *.
  now rewrite IH.
Qed.

Lemma advance_map dt vw0 vh0 ss :
  advance dt vw0 vh0 ss = map (advance_star dt vw0 vh0) ss.
Proof. apply for_stars_fst. Qed.

Lemma draw_stars now e :
  stars (draw now e) = advance (frame_dt now (last e)) (vw e) (vh e) (stars e).
Proof.
  unfold draw, advance.
  now destruct (for_stars _ _ _ _).
Qed.

Lemma draw_last now e : last (draw now e) = now.
Proof. unfold draw. now destruct (for_stars _ _ _ _). Qed.

Lemma draw_surface now e :
  dpr (draw now e) = dpr e /\ vw (draw now e) = vw e /\ vh (draw now e) = vh e /\
  cw (draw now e) = cw e /\ ch (draw now e) = ch e /\ canvas (draw now e) = canvas e.
Proof. unfold draw. now destruct (for_stars _ _ _ _). Qed.

Lemma simulate_cons dt dts vw0 vh0 ss :
  simulate (dt :: dts) vw0 vh0 ss = simulate dts vw0 vh0 (advance dt vw0 vh0 ss).
Proof. reflexivity. Qed.

Lemma simulate_repeat n dt vw0 vh0 ss :
  simulate (repeat dt n) vw0 vh0 ss = map (steps n dt vw0 vh0) ss.
Proof.
  revert ss; induction n as [|n IH]; intros ss; simpl.
  - symmetry; apply map_id.
  - change (simulate (repeat dt n) vw0 vh0 (advance dt vw0 vh0 ss)
            = map (fun s => steps n dt vw0 vh0 (advance_star dt vw0 vh0 s)) ss).
    now rewrite IH, advance_map, map_map.
Qed.

(** ** The fields of a star after the drift and after the wrap *)

Lemma drift_x dt s : x (drift dt s) = x s - spd s * dt * 0.6.
Proof. reflexivity. Qed.

Lemma drift_y dt s : y (drift dt s) = y s + spd s * dt * 0.4.
Proof. reflexivity. Qed.

Lemma drift_t dt s : t (drift dt s) = t s + dt * 4.
Proof. reflexivity. Qed.

Lemma drift_fixed dt s : fixed_part (drift dt s) = fixed_part s.
Proof. reflexivity. Qed.

Lemma wrap_x vw0 vh0 s :
  x (wrap vw0 vh0 s) = if Rlt_dec (x s) (-10) then vw0 + 10 else x s.
Proof.
  unfold wrap.
  destruct (Rlt_dec (x s) (-10)); destruct (Rgt_dec _ _); reflexivity.
Qed.

Lemma wrap_y vw0 vh0 s :
  y (wrap vw0 vh0 s) = if Rgt_dec (y s) (vh0 + 10) then -10 else y s.
Proof.
  unfold wrap.
  destruct (Rlt_dec (x s) (-10)); simpl; destruct (Rgt_dec _ _); reflexivity.
Qed.

Lemma wrap_t vw0 vh0 s : t (wrap vw0 vh0 s) = t s.
Proof.
  unfold wrap.
  destruct (Rlt_dec (x s) (-10)); simpl; destruct (Rgt_dec _ _); reflexivity.
Qed.

Lemma wrap_fixed vw0 vh0 s : fixed_part (wrap vw0 vh0 s) = fixed_part s.
Proof.
  unfold wrap.
  destruct (Rlt_dec (x s) (-10)); simpl; destruct (Rgt_dec _ _); reflexivity.
Qed.

Lemma star_eta (s s' : Star) :
  x s = x s' -> y s = y s' -> t s = t s' -> fixed_part s = fixed_part s' -> s = s'.
Proof.
  destruct s, s'; unfold fixed_part; simpl.
  intros -> -> -> H; injection H as -> -> -> ->; reflexivity.
Qed.

Lemma wrap_id vw0 vh0 s :
  ~ x s < -10 -> ~ y s > vh0 + 10 -> wrap vw0 vh0 s = s.
Proof.
  intros Hx Hy; unfold wrap.
  destruct (Rlt_dec (x s) (-10)); [contradiction|].
  destruct (Rgt_dec (y s) (vh0 + 10)); [contradiction|reflexivity].
Qed.

Lemma advance_star_fixed dt vw0 vh0 s :
  fixed_part (advance_star dt vw0 vh0 s) = fixed_part s.
Proof. unfold advance_star. now rewrite wrap_fixed, drift_fixed. Qed.

Lemma advance_star_t dt vw0 vh0 s :
  t (advance_star dt vw0 vh0 s) = t s + dt * 4.
Proof. unfold advance_star. now rewrite wrap_t, drift_t. Qed.

(** ** The drift (lines 65-67) *)

(** C4.  In every simulation step and for every star, the update made
    before the wrap tests is exactly [x := x - spd*dt*0.6],
    [y := y + spd*dt*0.4] and [t := t + dt*4]; the displacement of any two
    stars is parallel, whatever their layers; and the pool that a step (or
    a frame) leaves is the wrap applied to the drifted stars. *)
Theorem drift_update dt s :
  x (drift dt s) = x s - spd s * dt * 0.6 /\
  y (drift dt s) = y s + spd s * dt * 0.4 /\
  t (drift dt s) = t s + dt * 4 /\
  (forall s2,
      (x (drift dt s) - x s) * (y (drift dt s2) - y s2)
      = (y (drift dt s) - y s) * (x (drift dt s2) - x s2)) /\
  (forall vw0 vh0 ss,
      advance dt vw0 vh0 ss = map (fun s0 => wrap vw0 vh0 (drift dt s0)) ss) /\
  (forall now e,
      stars (draw now e)
      = map (fun s0 => wrap (vw e) (vh e) (drift (frame_dt now (last e)) s0))
            (stars e)).
Proof.
  repeat split.
  - intros s2. rewrite !drift_x, !drift_y. lra.
  - intros vw0 vh0 ss. apply advance_map.
  - intros now e. rewrite draw_stars. apply advance_map.
Qed.

(** ** The wrap (lines 69-70) *)

Lemma advance_star_x dt vw0 vh0 s :
  x (advance_star dt vw0 vh0 s)
  = if Rlt_dec (x (drift dt s)) (-10) then vw0 + 10 else x (drift dt s).
Proof. apply wrap_x. Qed.

Lemma advance_star_y dt vw0 vh0 s :
  y (advance_star dt vw0 vh0 s)
  = if Rgt_dec (y (drift dt s)) (vh0 + 10) then -10 else y (drift dt s).
Proof. apply wrap_y. Qed.



(** ** A step of no duration *)

Lemma advance_star_zero vw0 vh0 s :
  in_box vw0 vh0 s -> advance_star 0 vw0 vh0 s = s.
Proof.
  intros [[Hx _] [_ Hy]].
  unfold advance_star.
  rewrite wrap_id.
  - apply star_eta; rewrite ?drift_x, ?drift_y, ?drift_t, ?drift_fixed;
      try reflexivity; lra.
  - rewrite drift_x. lra.
  - rewrite drift_y. lra.
Qed.

(** C9.  With [dt = 0] the simulation step returns the pool as it was:
    every star keeps its position and its phase, provided the stars lie in
    the expanded bounding box. *)
Theorem zero_dt_identity vw0 vh0 ss :
  Forall (in_box vw0 vh0) ss -> advance 0 vw0 vh0 ss = ss.
Proof.
  intros H. rewrite advance_map.
  induction H as [|s rest Hs _ IH]; simpl; [reflexivity|].
  now rewrite IH, advance_star_zero.
Qed.

Lemma zero_dt_identity_witness :
  advance 0 800 600 [centred; corner] = [centred; corner].
Proof.
  apply zero_dt_identity.
  constructor; [|constructor; [|constructor]]; unfold in_box; simpl; lra.
Defined.

(** ** The pool built at startup (lines 29-48) *)

Lemma rng_ok_tail g : rng_ok g -> rng_ok (fun n => g (S n)).
Proof. intros H n; apply H. Qed.

Lemma rand_range lo hi g :
  rng_ok g -> lo <= hi ->
  lo <= fst (rand lo hi g) <= hi /\ rng_ok (snd (rand lo hi g)).
Proof.
  intros Hg Hle; unfold rand, Math.random; simpl.
  split; [|now apply rng_ok_tail].
  pose proof (Hg 0%nat). nra.
Qed.

Lemma layers_ok : Forall layer_ok layers.
Proof. repeat constructor; simpl; lra. Qed.

Lemma new_star_ok layer vw0 vh0 g :
  rng_ok g -> 0 <= vw0 -> 0 <= vh0 -> layer_ok layer ->
  star_ok vw0 vh0 (fst (new_star layer vw0 vh0 g))
  /\ rng_ok (snd (new_star layer vw0 vh0 g)).
Proof.
  intros Hg Hw Hh [Hlo Hhi].
  unfold new_star, rand, Math.random, star_ok, in_surface; simpl.
  split; [|intros n; apply Hg].
  pose proof (Hg 0%nat); pose proof (Hg 1%nat); pose proof (Hg 3%nat).
  repeat split; nra.
Qed.

Lemma new_star_hue layer vw0 vh0 g :
  hue (fst (new_star layer vw0 vh0 g)) = color layer.
Proof. reflexivity. Qed.

Lemma push_stars_ok n layer vw0 vh0 acc g :
  rng_ok g -> 0 <= vw0 -> 0 <= vh0 -> layer_ok layer ->
  Forall (star_ok vw0 vh0) acc ->
  Forall (star_ok vw0 vh0) (fst (push_stars n layer vw0 vh0 acc g))
  /\ rng_ok (snd (push_stars n layer vw0 vh0 acc g)).
Proof.
  intros Hg Hw Hh Hl; revert acc g Hg.
  induction n as [|n IH]; intros acc g Hg Hacc; cbn [push_stars];
    [now split|].
  destruct (new_star_ok layer vw0 vh0 g Hg Hw Hh Hl) as [Hs Hg'].
  destruct (new_star layer vw0 vh0 g) as [s g']; simpl in Hs, Hg'.
  apply IH; [exact Hg'|].
  apply Forall_app; split; [exact Hacc|].
  constructor; [exact Hs|constructor].
Qed.

Lemma build_stars_ok ls vw0 vh0 acc g :
  rng_ok g -> 0 <= vw0 -> 0 <= vh0 -> Forall layer_ok ls ->
  Forall (star_ok vw0 vh0) acc ->
  Forall (star_ok vw0 vh0) (fst (build_stars ls vw0 vh0 acc g)).
Proof.
  intros Hg Hw Hh Hls; revert acc g Hg.
  induction Hls as [|layer ls Hl _ IH]; intros acc g Hg Hacc;
    cbn [build_stars]; [assumption|].
  destruct (push_stars_ok (count layer) layer vw0 vh0 acc g Hg Hw Hh Hl Hacc)
    as [Ha Hg'].
  destruct (push_stars (count layer) layer vw0 vh0 acc g) as [acc' g'];
    simpl in Ha, Hg'.
  apply IH; assumption.
Qed.

Lemma push_stars_length n layer vw0 vh0 acc g :
  List.length (fst (push_stars n layer vw0 vh0 acc g)) = (List.length acc + n)%nat.
Proof.
  revert acc g; induction n as [|n IH]; intros acc g; cbn [push_stars];
    [simpl; lia|].
  destruct (new_star layer vw0 vh0 g) as [s g'].
  rewrite IH, length_app; simpl; lia.
Qed.

Lemma build_stars_length ls vw0 vh0 acc g :
  List.length (fst (build_stars ls vw0 vh0 acc g))
  = (List.length acc + list_sum (map count ls))%nat.
Proof.
  revert acc g; induction ls as [|layer ls IH]; intros acc g;
    cbn [build_stars]; [simpl; lia|].
  pose proof (push_stars_length (count layer) layer vw0 vh0 acc g) as Hp.
  destruct (push_stars (count layer) layer vw0 vh0 acc g) as [acc' g'];
    simpl in *.
  rewrite IH, Hp; lia.
Qed.

Lemma init_stars win g now0 :
  stars (init win g now0)
  = fst (build_stars layers (innerWidth win) (innerHeight win) [] g).
Proof.
  unfold init; cbn [resize boot vw vh stars].
  now destruct (build_stars layers (innerWidth win) (innerHeight win) [] g).
Qed.

Lemma init_surface win g now0 :
  dpr (init win g now0) = dpr_of win /\
  vw (init win g now0) = innerWidth win /\
  vh (init win g now0) = innerHeight win /\
  cw (init win g now0) = Math.floor (innerWidth win * dpr_of win) /\
  ch (init win g now0) = Math.floor (innerHeight win * dpr_of win) /\
  canvas (init win g now0) = canvas (resize win (boot win)) /\
  ctx (init win g now0) = ctx (resize win (boot win)).
Proof.
  unfold init; cbn [resize boot vw vh stars].
  now destruct (build_stars layers (innerWidth win) (innerHeight win) [] g).
Qed.

(** ** The wrap invariant *)

Lemma advance_star_in_box dt vw0 vh0 s :
  0 <= dt -> 0 <= spd s -> -20 <= vw0 -> -20 <= vh0 ->
  in_box vw0 vh0 s -> in_box vw0 vh0 (advance_star dt vw0 vh0 s).
Proof.
  intros Hdt Hs Hw Hh [[Hx1 Hx2] [Hy1 Hy2]].
  assert (0 <= spd s * dt) by nra.
  unfold in_box.
  rewrite advance_star_x, advance_star_y, drift_x, drift_y.
  destruct (Rlt_dec _ _); destruct (Rgt_dec _ _); unfold Rgt in *; lra.
Qed.

Lemma advance_star_spd dt vw0 vh0 s : spd (advance_star dt vw0 vh0 s) = spd s.
Proof.
  pose proof (advance_star_fixed dt vw0 vh0 s) as H.
  unfold fixed_part in H. now injection H.
Qed.

Lemma advance_in_box dt vw0 vh0 ss :
  0 <= dt -> -20 <= vw0 -> -20 <= vh0 ->
  Forall (fun s => in_box vw0 vh0 s /\ 0 <= spd s) ss ->
  Forall (fun s => in_box vw0 vh0 s /\ 0 <= spd s) (advance dt vw0 vh0 ss).
Proof.
  intros Hdt Hw Hh H. rewrite advance_map.
  induction H as [|s rest [Hb Hs] _ IH]; simpl; constructor; [|assumption].
  split; [now apply advance_star_in_box|now rewrite advance_star_spd].
Qed.

Lemma simulate_in_box dts vw0 vh0 ss :
  Forall (fun dt => 0 <= dt) dts -> -20 <= vw0 -> -20 <= vh0 ->
  Forall (fun s => in_box vw0 vh0 s /\ 0 <= spd s) ss ->
  Forall (fun s => in_box vw0 vh0 s /\ 0 <= spd s) (simulate dts vw0 vh0 ss).
Proof.
  intros Hdts Hw Hh; revert ss.
  induction Hdts as [|dt dts Hdt _ IH]; intros ss Hss; [assumption|].
  rewrite simulate_cons. apply IH. now apply advance_in_box.
Qed.

Lemma star_ok_in_box vw0 vh0 s :
  star_ok vw0 vh0 s -> in_box vw0 vh0 s /\ 0 <= spd s.
Proof. unfold star_ok, in_surface, in_box; intros; lra. Qed.

(** C1.  Every star of the pool built at startup lies in
    [[-10, vw+10] x [-10, vh+10]] after any number of simulation steps,
    each with a [dt] in [[0, 0.04]], on a surface that keeps the size it
    had at startup. *)
Theorem wrap_invariant win g now0 dts :
  rng_ok g -> 0 <= innerWidth win -> 0 <= innerHeight win ->
  Forall (fun dt => 0 <= dt <= 0.04) dts ->
  Forall (in_box (vw (init win g now0)) (vh (init win g now0)))
         (simulate dts (vw (init win g now0)) (vh (init win g now0))
                   (stars (init win g now0))).
Proof.
  intros Hg Hw Hh Hdts.
  destruct (init_surface win g now0) as (_ & -> & -> & _).
  rewrite init_stars.
  apply Forall_impl with (P := fun s => in_box (innerWidth win) (innerHeight win) s
                                       /\ 0 <= spd s);
    [intros s Hs; exact (proj1 Hs)|].
  apply simulate_in_box; try lra.
  - eapply Forall_impl; [|exact Hdts]. simpl; intros; lra.
  - eapply Forall_impl; [apply star_ok_in_box|].
    apply build_stars_ok; auto using layers_ok.
Qed.

Lemma wrap_invariant_witness :
  Forall (in_box (vw (init sample_window sample_rng 0))
                 (vh (init sample_window sample_rng 0)))
         (simulate [0.016; 0.04; 0]
                   (vw (init sample_window sample_rng 0))
                   (vh (init sample_window sample_rng 0))
                   (stars (init sample_window sample_rng 0))).
Proof.
  apply (wrap_invariant sample_window sample_rng 0 [0.016; 0.04; 0]).
  - intros n; unfold sample_rng; lra.
  - simpl; lra.
  - simpl; lra.
  - constructor; [lra|constructor; [lra|constructor; [lra|constructor]]].
Defined.

(** ** What a step leaves alone *)

Lemma advance_fixed dt vw0 vh0 ss :
  map fixed_part (advance dt vw0 vh0 ss) = map fixed_part ss.
Proof.
  rewrite advance_map, map_map.
  apply map_ext; intros s; apply advance_star_fixed.
Qed.

Lemma advance_length dt vw0 vh0 ss :
  List.length (advance dt vw0 vh0 ss) = List.length ss.
Proof. rewrite advance_map; apply length_map. Qed.

Lemma handle_fixed e ev :
  map fixed_part (stars (handle e ev)) = map fixed_part (stars e).
Proof.
  destruct ev as [win|now]; simpl; [reflexivity|].
  rewrite draw_stars; apply advance_fixed.
Qed.

Lemma run_fixed evs e :
  map fixed_part (stars (run evs e)) = map fixed_part (stars e).
Proof.
  revert e; induction evs as [|ev evs IH]; intros e; simpl; [reflexivity|].
  unfold run in IH. now rewrite IH, handle_fixed.
Qed.

Lemma init_length win g now0 :
  List.length (stars (init win g now0)) = 180%nat.
Proof. rewrite init_stars, build_stars_length. reflexivity. Qed.

(** C10.  A simulation step writes only [x], [y] and [t]: the radius, the
    speed, the tint and the twinkle amplitude of every star are as before,
    and so is the number of stars.  The pool holds 80 + 60 + 40 = 180
    stars at startup and after any sequence of frames and resizes. *)
Theorem step_frame :
  (forall dt vw0 vh0 ss,
      map fixed_part (advance dt vw0 vh0 ss) = map fixed_part ss /\
      List.length (advance dt vw0 vh0 ss) = List.length ss) /\
  (forall now e,
      map fixed_part (stars (draw now e)) = map fixed_part (stars e) /\
      List.length (stars (draw now e)) = List.length (stars e)) /\
  list_sum (map count layers) = (80 + 60 + 40)%nat /\
  (forall win g now0 evs,
      List.length (stars (run evs (init win g now0))) = 180%nat /\
      map fixed_part (stars (run evs (init win g now0)))
      = map fixed_part (stars (init win g now0))).
Proof.
  split; [|split; [|split]].
  - intros; split; [apply advance_fixed|apply advance_length].
  - intros now e; rewrite draw_stars.
    split; [apply advance_fixed|apply advance_length].
  - reflexivity.
  - intros win g now0 evs.
    pose proof (run_fixed evs (init win g now0)) as H.
    split; [|exact H].
    rewrite <- (length_map fixed_part), H, length_map.
    apply init_length.
Qed.

(** ** Many short steps against one long step *)

Lemma steps_t n dt vw0 vh0 s :
  t (steps n dt vw0 vh0 s) = t s + INR n * dt * 4.
Proof.
  revert s; induction n as [|n IH]; intros s.
  - simpl; lra.
  - cbn [steps]. rewrite IH, advance_star_t, S_INR. lra.
Qed.

Lemma advance_star_no_wrap dt vw0 vh0 s :
  ~ wraps dt vh0 s -> advance_star dt vw0 vh0 s = drift dt s.
Proof.
  intros H; unfold advance_star; apply wrap_id; intros Hc; apply H;
    [left|right]; exact Hc.
Qed.

Lemma drift_drift d1 d2 s : drift d1 (drift d2 s) = drift (d1 + d2) s.
Proof.
  apply star_eta; rewrite ?drift_x, ?drift_y, ?drift_t, ?drift_fixed;
    try reflexivity; simpl; lra.
Qed.

Lemma drift_zero s : drift 0 s = s.
Proof.
  apply star_eta; rewrite ?drift_x, ?drift_y, ?drift_t, ?drift_fixed;
    try reflexivity; lra.
Qed.

Lemma steps_wrap_free n dt vw0 vh0 s :
  wrap_free n dt vw0 vh0 s -> steps n dt vw0 vh0 s = drift (INR n * dt) s.
Proof.
  revert s; induction n as [|n IH]; intros s H.
  - simpl. rewrite Rmult_0_l. symmetry; apply drift_zero.
  - destruct H as [Hw Hrest]. cbn [steps].
    rewrite (advance_star_no_wrap dt vw0 vh0 s Hw) in *.
    rewrite (IH _ Hrest), drift_drift, S_INR.
    f_equal; lra.
Qed.

Lemma wrap_free_last n dt vw0 vh0 s :
  wrap_free (S n) dt vw0 vh0 s -> ~ wraps (INR (S n) * dt) vh0 s.
Proof.
  revert s; induction n as [|n IH]; intros s [Hw Hrest].
  - simpl INR. now rewrite Rmult_1_l.
  - rewrite (advance_star_no_wrap dt vw0 vh0 s Hw) in Hrest.
    specialize (IH _ Hrest).
    unfold wraps in *. rewrite drift_drift in IH.
    replace (INR (S (S n)) * dt) with (INR (S n) * dt + dt)
      by (rewrite (S_INR (S n)); lra).
    exact IH.
Qed.

(** In exact arithmetic, for [dt > 0] and [N >= 1], [N] steps by [dt] and
    one step by [N * dt] leave every star with the same phase; and a star
    for which no wrap fires during the [N] steps has the same position
    either way. *)
Theorem phase_linearity (n : nat) dt vw0 vh0 :
  0 < dt -> (1 <= n)%nat ->
  (forall ss,
      simulate (repeat dt n) vw0 vh0 ss = map (steps n dt vw0 vh0) ss) /\
  (forall ss,
      map t (simulate (repeat dt n) vw0 vh0 ss)
      = map t (advance (INR n * dt) vw0 vh0 ss)) /\
  (forall s,
      t (steps n dt vw0 vh0 s) = t (advance_star (INR n * dt) vw0 vh0 s)) /\
  (forall s,
      wrap_free n dt vw0 vh0 s ->
      x (steps n dt vw0 vh0 s) = x (advance_star (INR n * dt) vw0 vh0 s) /\
      y (steps n dt vw0 vh0 s) = y (advance_star (INR n * dt) vw0 vh0 s)).
Proof.
  intros Hdt Hn.
  assert (Ht : forall s,
             t (steps n dt vw0 vh0 s)
             = t (advance_star (INR n * dt) vw0 vh0 s))
    by (intros s; now rewrite steps_t, advance_star_t).
  split; [|split; [|split]].
  - intros ss; apply simulate_repeat.
  - intros ss. rewrite simulate_repeat, advance_map, !map_map.
    apply map_ext; exact Ht.
  - exact Ht.
  - intros s Hfree.
    rewrite (steps_wrap_free n dt vw0 vh0 s Hfree).
    destruct n as [|n]; [lia|].
    rewrite (advance_star_no_wrap _ vw0 vh0 s (wrap_free_last n dt vw0 vh0 s Hfree)).
    split; reflexivity.
Qed.

Lemma phase_linearity_witness :
  t (steps 3 0.01 800 600 centred)
  = t (advance_star (INR 3 * 0.01) 800 600 centred) /\
  x (steps 3 0.01 800 600 centred)
  = x (advance_star (INR 3 * 0.01) 800 600 centred) /\
  y (steps 3 0.01 800 600 centred)
  = y (advance_star (INR 3 * 0.01) 800 600 centred).
Proof.
  assert (Hdt : 0 < 0.01) by lra.
  assert (Hn : (1 <= 3)%nat) by lia.
  destruct (phase_linearity 3 0.01 800 600 Hdt Hn) as (_ & _ & Ht & Hxy).
  split; [apply Ht|apply Hxy].
  assert (H1 : ~ wraps 0.01 600 centred)
    by (unfold wraps; simpl; lra).
  split; [exact H1|].
  rewrite (advance_star_no_wrap 0.01 800 600 centred H1).
  assert (H2 : ~ wraps 0.01 600 (drift 0.01 centred))
    by (unfold wraps; simpl; lra).
  split; [exact H2|].
  rewrite (advance_star_no_wrap 0.01 800 600 _ H2).
  split; [unfold wraps; simpl; lra|exact I].
Defined.











(** ** The frame clock (lines 52-53) *)

Lemma frame_dt_le now last0 : frame_dt now last0 <= 0.04.
Proof. unfold frame_dt, Math.min. apply Rmin_l. Qed.

Lemma frame_dt_nonneg now last0 : 0 <= frame_dt now last0 <-> last0 <= now.
Proof.
  unfold frame_dt, Math.min, Rmin.
  destruct (Rle_dec _ _); split; intros; lra.
Qed.

Lemma frame_dt_clamp now last0 :
  last0 <= now -> frame_dt now last0 = spec_dt now last0.
Proof.
  intros H. unfold frame_dt, spec_dt, clamp, Math.min.
  rewrite Rmax_right; [reflexivity|].
  unfold Rmin; destruct (Rle_dec _ _); lra.
Qed.

(** C2, as the code has it.  On every tick [dt] is
    [min(0.04, (now - last) / 1000)] seconds and [last] becomes [now];
    [dt] never exceeds 0.04; it is non-negative exactly when [now] is not
    below the stored [last], and it is then the clamp of the elapsed
    seconds to [[0, 0.04]]. *)
Theorem frame_clock now e :
  last (draw now e) = now /\
  stars (draw now e)
  = advance (frame_dt now (last e)) (vw e) (vh e) (stars e) /\
  frame_dt now (last e) = Rmin 0.04 ((now - last e) / 1000) /\
  frame_dt now (last e) <= 0.04 /\
  (0 <= frame_dt now (last e) <-> last e <= now) /\
  (last e <= now -> frame_dt now (last e) = spec_dt now (last e)).
Proof.
  split; [apply draw_last|].
  split; [apply draw_stars|].
  split; [reflexivity|].
  split; [apply frame_dt_le|].
  split; [apply frame_dt_nonneg|apply frame_dt_clamp].
Qed.

Lemma init_last win g now0 : last (init win g now0) = now0.
Proof.
  unfold init.
  now destruct (build_stars layers _ _ _ g).
Qed.

Lemma frame_clock_witness :
  frame_dt 1016 (last (init sample_window sample_rng 1000))
  = spec_dt 1016 (last (init sample_window sample_rng 1000)).
Proof.
  apply (frame_clock 1016 (init sample_window sample_rng 1000)).
  rewrite init_last; lra.
Defined.

(** C2 as stated fails: a timestamp below the stored one gives a negative
    [dt], which the step then uses, where the clamp to [[0, 0.04]] would
    give 0. *)
Lemma frame_clock_counterexample :
  last (init sample_window sample_rng 1000) = 1000 /\
  frame_dt 0 1000 = -1 /\
  frame_dt 0 1000 < 0 /\
  spec_dt 0 1000 = 0 /\
  frame_dt 0 1000 <> spec_dt 0 1000 /\
  stars (draw 0 (init sample_window sample_rng 1000))
  = advance (-1) 800 600 (stars (init sample_window sample_rng 1000)).
Proof.
  assert (Hf : frame_dt 0 1000 = -1).
  { unfold frame_dt, Math.min, Rmin. destruct (Rle_dec _ _); lra. }
  assert (Hs : spec_dt 0 1000 = 0).
  { unfold spec_dt, clamp. rewrite Rmin_right by lra. apply Rmax_left; lra. }
  split; [apply init_last|].
  split; [exact Hf|].
  split; [lra|].
  split; [exact Hs|].
  split; [lra|].
  rewrite draw_stars, init_last, Hf.
  destruct (init_surface sample_window sample_rng 1000) as (_ & -> & -> & _).
  reflexivity.
Qed.

(** ** The twinkle (lines 68 and 74) *)

Lemma alpha_bounds phase : 0.4 <= alpha phase <= 1.
Proof.
  unfold alpha, Math.sin. pose proof (SIN_bound phase). lra.
Qed.

Lemma fill_alpha_tight phase : 0.49 <= fill_alpha (alpha phase) <= 0.70.
Proof.
  unfold fill_alpha. pose proof (alpha_bounds phase). lra.
Qed.

Lemma star_body_snd dt vw0 vh0 s :
  snd (star_body dt vw0 vh0 s)
  = paint (alpha (t s + dt * 4)) (advance_star dt vw0 vh0 s).
Proof. reflexivity. Qed.

Lemma advance_star_hue dt vw0 vh0 s : hue (advance_star dt vw0 vh0 s) = hue s.
Proof.
  pose proof (advance_star_fixed dt vw0 vh0 s) as H.
  unfold fixed_part in H. now injection H.
Qed.

(** C5.  For every phase the number formatted into the tint,
    [0.35 + (0.7 + sin(phase)*0.3) * 0.35], lies in [[0.35, 0.70]]; at the
    phases 0, pi/2, pi and 3pi/2 it is 0.595, 0.70, 0.595 and 0.49.  It is
    the alpha that each iteration of the loop writes into the fill style,
    taken at the phase the star has after the drift. *)
Theorem derived_alpha_range :
  (forall phase, 0.35 <= fill_alpha (alpha phase) <= 0.70) /\
  fill_alpha (alpha 0) = 0.595 /\
  fill_alpha (alpha (PI / 2)) = 0.70 /\
  fill_alpha (alpha PI) = 0.595 /\
  fill_alpha (alpha (3 * (PI / 2))) = 0.49 /\
  (forall dt vw0 vh0 s,
      In (SetFillStyle
            (Color (replace "0.55"
                            (toFixed2 (fill_alpha (alpha (t s + dt * 4))))
                            (hue s))))
         (snd (star_body dt vw0 vh0 s))).
Proof.
  split; [intros phase; pose proof (fill_alpha_tight phase); lra|].
  unfold fill_alpha, alpha, Math.sin.
  rewrite sin_0, sin_PI2, sin_PI, sin_3PI2.
  repeat (split; [lra|]).
  intros dt vw0 vh0 s.
  rewrite star_body_snd, <- (advance_star_hue dt vw0 vh0 s).
  unfold paint. right; right; left. reflexivity.
Qed.

(** ** The surface (lines 8-23) *)

Lemma dpr_of_clamp win :
  dpr_of win = clamp (or_default (devicePixelRatio win) 1) 1 2.
Proof. reflexivity. Qed.

Lemma dpr_of_range win : 1 <= dpr_of win <= 2.
Proof.
  unfold dpr_of, Math.max, Math.min.
  split; [apply Rmax_l|].
  apply Rmax_lub; [lra|apply Rmin_l].
Qed.

Lemma floor_bounds v : v - 1 < Math.floor v <= v.
Proof.
  unfold Math.floor. destruct (base_Int_part v). lra.
Qed.

Lemma floor_unique v (k : Z) : v - 1 < IZR k <= v -> Math.floor v = IZR k.
Proof.
  intros H. unfold Math.floor. now rewrite <- (Int_part_spec v k H).
Qed.

Lemma transform_reset cs d :
  current_transform (cs ++ [SetTransform 1 0 0 1 0 0; Scale d d]) = scaling d.
Proof.
  unfold current_transform. rewrite fold_left_app. simpl.
  unfold scaling. f_equal; lra.
Qed.

Lemma transform_kept cs pre :
  Forall keeps_transform cs ->
  current_transform (pre ++ cs) = current_transform pre.
Proof.
  unfold current_transform. rewrite fold_left_app.
  generalize (fold_left apply_call pre identity).
  induction cs as [|c cs IH]; intros m H; [reflexivity|].
  inversion H as [|? ? Hc Hcs]; subst. simpl.
  rewrite IH by assumption.
  destruct c; simpl in Hc; try contradiction; reflexivity.
Qed.

Lemma paint_keeps a s : Forall keeps_transform (paint a s).
Proof. unfold paint. repeat constructor. Qed.

Lemma for_stars_keeps dt vw0 vh0 ss :
  Forall keeps_transform (snd (for_stars dt vw0 vh0 ss)).
Proof.
  induction ss as [|s rest IH]; [constructor|].
  cbn [for_stars].
  pose proof (star_body_snd dt vw0 vh0 s) as Hs.
  destruct (star_body dt vw0 vh0 s) as [s' cs].
  destruct (for_stars dt vw0 vh0 rest) as [rest' cs']. simpl in *.
  apply Forall_app; split; [|assumption].
  rewrite Hs; apply paint_keeps.
Qed.

Lemma draw_transform now e :
  current_transform (ctx (draw now e)) = current_transform (ctx e).
Proof.
  unfold draw.
  pose proof (for_stars_keeps (frame_dt now (last e)) (vw e) (vh e) (stars e)) as H.
  destruct (for_stars _ _ _ _) as [ss cs]; simpl in *.
  apply transform_kept.
  repeat (constructor; [exact I|]). exact H.
Qed.

Lemma resize_configured win e : configured (resize win e).
Proof.
  unfold configured, resize; simpl.
  repeat (split; [reflexivity|]).
  apply transform_reset.
Qed.

Lemma draw_configured now e : configured e -> configured (draw now e).
Proof.
  unfold configured. rewrite draw_transform.
  destruct (draw_surface now e) as (-> & -> & -> & -> & -> & ->).
  trivial.
Qed.

Lemma init_configured win g now0 :
  configured (init win g now0) /\ dpr (init win g now0) = dpr_of win.
Proof.
  unfold configured.
  destruct (init_surface win g now0) as (-> & -> & -> & -> & -> & -> & ->).
  split; [|reflexivity].
  apply (resize_configured win (boot win)).
Qed.

Lemma run_configured evs e :
  configured e -> configured (run evs e) /\ dpr (run evs e) = dpr e.
Proof.
  revert e; induction evs as [|ev evs IH]; intros e H; [now split|].
  change (run (ev :: evs) e) with (run evs (handle e ev)).
  destruct ev as [win|now]; simpl handle.
  - destruct (IH _ (resize_configured win e)) as [Hc ->]. now split.
  - destruct (IH _ (draw_configured now e H)) as [Hc ->].
    split; [assumption|apply draw_surface].
Qed.

Lemma to_device_scaling d p : to_device (scaling d) p = (d * fst p, d * snd p).
Proof. unfold to_device, scaling; simpl. f_equal; lra. Qed.

(** C6, as the code has it.  The pixel scale is the device pixel ratio
    clamped to [[1, 2]].  Every configuration of the surface, at startup
    and on each resize, sets the backing store to
    [floor(logical * scale)] in both axes and leaves a transform that
    scales by the pixel scale, so that drawing is done in logical
    coordinates; the frames that follow keep both. *)
Theorem surface_configuration :
  (forall win,
      1 <= dpr_of win <= 2 /\
      dpr_of win = clamp (or_default (devicePixelRatio win) 1) 1 2) /\
  (forall win e,
      width (canvas (resize win e)) = Math.floor (innerWidth win * dpr e) /\
      height (canvas (resize win e)) = Math.floor (innerHeight win * dpr e) /\
      innerWidth win * dpr e - 1 < width (canvas (resize win e))
                                 <= innerWidth win * dpr e /\
      innerHeight win * dpr e - 1 < height (canvas (resize win e))
                                  <= innerHeight win * dpr e /\
      forall p, to_device (current_transform (ctx (resize win e))) p
                = (dpr e * fst p, dpr e * snd p)) /\
  (forall win g now0 evs,
      dpr (run evs (init win g now0)) = dpr_of win /\
      width (canvas (run evs (init win g now0)))
      = Math.floor (vw (run evs (init win g now0)) * dpr_of win) /\
      height (canvas (run evs (init win g now0)))
      = Math.floor (vh (run evs (init win g now0)) * dpr_of win) /\
      forall p, to_device (current_transform (ctx (run evs (init win g now0)))) p
                = (dpr_of win * fst p, dpr_of win * snd p)).
Proof.
  split; [|split].
  - intros win; split; [apply dpr_of_range|apply dpr_of_clamp].
  - intros win e.
    destruct (resize_configured win e) as (Hcw & Hch & Hw & Hh & _ & _ & Ht).
    rewrite Hw, Hh, Hcw, Hch, Ht. simpl vw; simpl vh; simpl dpr.
    repeat split; try apply floor_bounds.
    intros p; apply to_device_scaling.
  - intros win g now0 evs.
    destruct (init_configured win g now0) as [Hc Hd].
    destruct (run_configured evs _ Hc) as [(Hcw & Hch & Hw & Hh & _ & _ & Ht) Hd'].
    rewrite Hw, Hh, Hcw, Hch, Ht, Hd', Hd.
    repeat split.
    intros p; apply to_device_scaling.
Qed.

Lemma dpr_of_zoomed : dpr_of zoomed_window = 1.75.
Proof.
  unfold dpr_of, zoomed_window, or_default, Math.max, Math.min; simpl.
  destruct (Req_dec_T 1.75 0) as [H|_]; [lra|].
  rewrite Rmin_right by lra. apply Rmax_right; lra.
Qed.

Lemma dpr_of_sample : dpr_of sample_window = 1.5.
Proof.
  unfold dpr_of, sample_window, or_default, Math.max, Math.min; simpl.
  destruct (Req_dec_T 1.5 0) as [H|_]; [lra|].
  rewrite Rmin_right by lra. apply Rmax_right; lra.
Qed.

(** C6 as stated fails: an 801 x 601 window at a pixel ratio of 1.75 gets
    a backing store of 1401 x 1051, while 801 * 1.75 = 1401.75 and
    601 * 1.75 = 1051.75 round to 1402 and 1052. *)
Lemma surface_configuration_counterexample :
  dpr (init zoomed_window sample_rng 0) = 1.75 /\
  width (canvas (init zoomed_window sample_rng 0)) = 1401 /\
  height (canvas (init zoomed_window sample_rng 0)) = 1051 /\
  spec_round (innerWidth zoomed_window * 1.75) = 1402 /\
  spec_round (innerHeight zoomed_window * 1.75) = 1052 /\
  width (canvas (init zoomed_window sample_rng 0))
  <> spec_round (innerWidth zoomed_window * dpr (init zoomed_window sample_rng 0)) /\
  height (canvas (init zoomed_window sample_rng 0))
  <> spec_round (innerHeight zoomed_window * dpr (init zoomed_window sample_rng 0)).
Proof.
  destruct (init_configured zoomed_window sample_rng 0)
    as [(Hcw & Hch & Hw & Hh & _) Hd].
  destruct (init_surface zoomed_window sample_rng 0) as (_ & Hvw & Hvh & _).
  rewrite Hw, Hh, Hcw, Hch, Hvw, Hvh, Hd, dpr_of_zoomed. simpl.
  assert (W : Math.floor (801 * 1.75) = 1401) by (apply floor_unique; lra).
  assert (H : Math.floor (601 * 1.75) = 1051) by (apply floor_unique; lra).
  assert (RW : spec_round (801 * 1.75) = 1402)
    by (apply (floor_unique (801 * 1.75 + / 2)); lra).
  assert (RH : spec_round (601 * 1.75) = 1052)
    by (apply (floor_unique (601 * 1.75 + / 2)); lra).
  rewrite W, H, RW, RH.
  repeat split; lra.
Qed.

(** C7.  A resize keeps the pool as it is, so no star changes its position,
    radius or speed, and sets the device size to the new logical size
    times the clamped pixel scale, cut to an integer.  From 800 x 600 to
    1200 x 900 at a pixel scale of 1.5 the device size goes from
    1200 x 900 to 1800 x 1350. *)
Theorem resize_effect :
  (forall win e,
      stars (resize win e) = stars e /\
      dpr (resize win e) = dpr e /\
      vw (resize win e) = innerWidth win /\
      vh (resize win e) = innerHeight win /\
      cw (resize win e) = Math.floor (innerWidth win * dpr e) /\
      ch (resize win e) = Math.floor (innerHeight win * dpr e) /\
      innerWidth win * dpr e - 1 < cw (resize win e) <= innerWidth win * dpr e /\
      innerHeight win * dpr e - 1 < ch (resize win e) <= innerHeight win * dpr e) /\
  (vw (init sample_window sample_rng 0) = 800 /\
   vh (init sample_window sample_rng 0) = 600 /\
   cw (init sample_window sample_rng 0) = 800 * 1.5 /\
   ch (init sample_window sample_rng 0) = 600 * 1.5 /\
   vw (resize enlarged_window (init sample_window sample_rng 0)) = 1200 /\
   vh (resize enlarged_window (init sample_window sample_rng 0)) = 900 /\
   cw (resize enlarged_window (init sample_window sample_rng 0)) = 1200 * 1.5 /\
   ch (resize enlarged_window (init sample_window sample_rng 0)) = 900 * 1.5 /\
   map (fun s => (x s, y s, r s, spd s))
       (stars (resize enlarged_window (init sample_window sample_rng 0)))
   = map (fun s => (x s, y s, r s, spd s))
         (stars (init sample_window sample_rng 0))).
Proof.
  split.
  - intros win e. simpl.
    repeat (split; [reflexivity|]).
    split; apply floor_bounds.
  - destruct (init_surface sample_window sample_rng 0)
      as (Hd & Hvw & Hvh & Hcw & Hch & _).
    assert (Hcw' : cw (resize enlarged_window (init sample_window sample_rng 0))
                   = Math.floor (1200 * dpr (init sample_window sample_rng 0)))
      by reflexivity.
    assert (Hch' : ch (resize enlarged_window (init sample_window sample_rng 0))
                   = Math.floor (900 * dpr (init sample_window sample_rng 0)))
      by reflexivity.
    rewrite Hvw, Hvh, Hcw, Hch, Hcw', Hch', Hd, dpr_of_sample.
    repeat split.
    + rewrite (floor_unique _ 1200); simpl; lra.
    + rewrite (floor_unique _ 900); simpl; lra.
    + rewrite (floor_unique _ 1800); lra.
    + rewrite (floor_unique _ 1350); lra.
Qed.

(** ** The frame loop as a whole *)

(** With timestamps that never go back, the frames delivered after startup
    keep every star in the expanded bounding box. *)
Lemma frames_in_box win g now0 nows :
  rng_ok g -> 0 <= innerWidth win -> 0 <= innerHeight win ->
  nondecreasing now0 nows ->
  Forall (in_box (innerWidth win) (innerHeight win))
         (stars (run (map OnFrame nows) (init win g now0))).
Proof.
  intros Hg Hw Hh Hnows.
  assert (Hinv : forall e,
             vw e = innerWidth win -> vh e = innerHeight win ->
             nondecreasing (last e) nows ->
             Forall (fun s => in_box (innerWidth win) (innerHeight win) s
                              /\ 0 <= spd s) (stars e) ->
             Forall (fun s => in_box (innerWidth win) (innerHeight win) s
                              /\ 0 <= spd s)
                    (stars (run (map OnFrame nows) e))).
  { clear Hnows. induction nows as [|now rest IH]; intros e Hvw Hvh Hmono Hss;
      [exact Hss|].
    destruct Hmono as [Hle Hrest].
    change (run (map OnFrame (now :: rest)) e)
      with (run (map OnFrame rest) (draw now e)).
    destruct (draw_surface now e) as (_ & Hvw' & Hvh' & _).
    apply IH.
    - now rewrite Hvw'.
    - now rewrite Hvh'.
    - now rewrite draw_last.
    - rewrite draw_stars, Hvw, Hvh.
      apply advance_in_box; try lra; [|exact Hss].
      now apply frame_dt_nonneg. }
  apply Forall_impl with (P := fun s => in_box (innerWidth win) (innerHeight win) s
                                       /\ 0 <= spd s);
    [intros s Hs; exact (proj1 Hs)|].
  destruct (init_surface win g now0) as (_ & Hvw & Hvh & _).
  apply (Hinv (init win g now0) Hvw Hvh).
  - rewrite init_last; exact Hnows.
  - rewrite init_stars.
    eapply Forall_impl; [apply star_ok_in_box|].
    apply build_stars_ok; auto using layers_ok.
Qed.

(** ** The text of the fill style *)

Lemma toFixed2_hundredths v (k : Z) :
  0 <= v -> IZR k - / 2 <= v * 100 < IZR k + / 2 ->
  toFixed2 v = hundredths k.
Proof.
  intros Hv Hk. unfold toFixed2.
  destruct (Rlt_dec v 0) as [Hneg|_]; [lra|].
  rewrite <- (Int_part_spec (v * 100 + / 2) k); [reflexivity|lra].
Qed.

(** At the crest of the twinkle a star of the near layer is filled with
    its tint at alpha 0.70, at the trough with alpha 0.49. *)
Lemma fill_style_crest :
  replace "0.55" (toFixed2 (fill_alpha (alpha (PI / 2)))) "rgba(154,223,255,0.55)"
  = "rgba(154,223,255,0.70)"%string.
Proof.
  rewrite (toFixed2_hundredths (fill_alpha (alpha (PI / 2))) 70).
  - reflexivity.
  - pose proof (fill_alpha_tight (PI / 2)); lra.
  - unfold fill_alpha, alpha, Math.sin. rewrite sin_PI2. lra.
Qed.

Lemma fill_style_trough :
  replace "0.55" (toFixed2 (fill_alpha (alpha (3 * (PI / 2))))) "rgba(154,223,255,0.55)"
  = "rgba(154,223,255,0.49)"%string.
Proof.
  rewrite (toFixed2_hundredths (fill_alpha (alpha (3 * (PI / 2)))) 49).
  - reflexivity.
  - pose proof (fill_alpha_tight (3 * (PI / 2))); lra.
  - unfold fill_alpha, alpha, Math.sin. rewrite sin_3PI2. lra.
Qed.

(** Whatever the phase, the two decimals written into the tint read
    between 0.49 and 0.70. *)
Lemma fill_text_range phase :
  exists k : Z,
    (49 <= k <= 70)%Z /\ toFixed2 (fill_alpha (alpha phase)) = hundredths k.
Proof.
  pose proof (fill_alpha_tight phase) as Hv.
  exists (Int_part (fill_alpha (alpha phase) * 100 + / 2)).
  destruct (base_Int_part (fill_alpha (alpha phase) * 100 + / 2)) as [Hlo Hhi].
  split.
  - assert (48 < Int_part (fill_alpha (alpha phase) * 100 + / 2))%Z
      by (apply lt_IZR; lra).
    assert (Int_part (fill_alpha (alpha phase) * 100 + / 2) < 71)%Z
      by (apply lt_IZR; lra).
    lia.
  - apply toFixed2_hundredths; lra.
Qed.

(** * Beyond the claims *)

(** ** [rand] *)

(** X1.  With [Math.random] in [[0, 1)], [rand(lo, hi)] lies between
    [lo] and [hi], both included, whichever of the two is the larger; it
    takes one number from the stream. *)
Theorem rand_between lo hi g :
  rng_ok g ->
  (lo <= hi -> lo <= fst (rand lo hi g) <= hi) /\
  (hi <= lo -> hi <= fst (rand lo hi g) <= lo) /\
  snd (rand lo hi g) = (fun n => g (S n)).
Proof.
  intros Hg. unfold rand, Math.random; simpl.
  pose proof (Hg 0%nat).
  repeat split; intros; nra.
Qed.

Lemma rand_between_witness :
  1 <= fst (rand 1 4 sample_rng) <= 4.
Proof.
  apply (rand_between 1 4 sample_rng).
  - intros n; unfold sample_rng; lra.
  - lra.
Defined.

(** ** The pool, layer by layer *)

Lemma layers_wf : Forall layer_wf layers.
Proof. repeat constructor; simpl; lra. Qed.

Lemma new_star_of_layer layer vw0 vh0 g :
  rng_ok g -> 0 <= vw0 -> 0 <= vh0 -> layer_wf layer ->
  of_layer vw0 vh0 layer (fst (new_star layer vw0 vh0 g))
  /\ rng_ok (snd (new_star layer vw0 vh0 g)).
Proof.
  intros Hg Hw Hh [Hsz Hsp].
  unfold new_star, rand, Math.random, of_layer, Math.PI; simpl.
  split; [|intros n; apply Hg].
  pose proof (Hg 0%nat); pose proof (Hg 1%nat); pose proof (Hg 2%nat);
    pose proof (Hg 3%nat); pose proof (Hg 4%nat); pose proof (Hg 5%nat).
  pose proof PI_RGT_0.
  repeat split; try reflexivity; nra.
Qed.

Lemma push_stars_run n layer vw0 vh0 acc g :
  rng_ok g -> 0 <= vw0 -> 0 <= vh0 -> layer_wf layer ->
  exists run_l,
    fst (push_stars n layer vw0 vh0 acc g) = acc ++ run_l /\
    List.length run_l = n /\
    Forall (of_layer vw0 vh0 layer) run_l /\
    rng_ok (snd (push_stars n layer vw0 vh0 acc g)).
Proof.
  intros Hg Hw Hh Hl; revert acc g Hg.
  induction n as [|n IH]; intros acc g Hg; cbn [push_stars].
  - exists []. rewrite app_nil_r.
    split; [reflexivity|split; [reflexivity|split; [constructor|exact Hg]]].
  - destruct (new_star_of_layer layer vw0 vh0 g Hg Hw Hh Hl) as [Hs Hg'].
    destruct (new_star layer vw0 vh0 g) as [s g']; simpl in Hs, Hg'.
    destruct (IH (acc ++ [s]) g' Hg') as (run_l & Heq & Hlen & Hall & Hrng).
    exists (s :: run_l).
    rewrite Heq, <- app_assoc. simpl.
    split; [reflexivity|].
    split; [now rewrite Hlen|].
    split; [now constructor|exact Hrng].
Qed.

Lemma build_stars_grouped ls vw0 vh0 acc g :
  rng_ok g -> 0 <= vw0 -> 0 <= vh0 -> Forall layer_wf ls ->
  exists rest,
    fst (build_stars ls vw0 vh0 acc g) = acc ++ rest /\
    grouped vw0 vh0 ls rest.
Proof.
  intros Hg Hw Hh Hls; revert acc g Hg.
  induction Hls as [|layer ls Hl _ IH]; intros acc g Hg; cbn [build_stars].
  - exists []. now rewrite app_nil_r.
  - destruct (push_stars_run (count layer) layer vw0 vh0 acc g Hg Hw Hh Hl)
      as (run_l & Heq & Hlen & Hall & Hrng).
    destruct (push_stars (count layer) layer vw0 vh0 acc g) as [acc' g'];
      simpl in Heq, Hrng.
    destruct (IH acc' g' Hrng) as (rest & Heq' & Hgr).
    exists (run_l ++ rest). rewrite Heq', Heq, <- app_assoc.
    split; [reflexivity|].
    exists run_l, rest. repeat split; assumption.
Qed.

(** X2.  The pool built at startup is 80 stars of the first layer, then
    60 of the second, then 40 of the third; every star lies on the
    surface, has the tint of its layer, a radius and a speed in the
    ranges of its layer, a twinkle amplitude in [[0.6, 1]] and a phase in
    [[0, 2 pi]]. *)
Theorem pool_by_layers win g now0 :
  rng_ok g -> 0 <= innerWidth win -> 0 <= innerHeight win ->
  grouped (innerWidth win) (innerHeight win) layers (stars (init win g now0)).
Proof.
  intros Hg Hw Hh. rewrite init_stars.
  destruct (build_stars_grouped layers (innerWidth win) (innerHeight win) [] g
              Hg Hw Hh layers_wf) as (rest & -> & Hgr).
  exact Hgr.
Qed.

Lemma pool_by_layers_witness :
  grouped (innerWidth sample_window) (innerHeight sample_window) layers
          (stars (init sample_window sample_rng 0)).
Proof.
  apply (pool_by_layers sample_window sample_rng 0).
  - intros n; unfold sample_rng; lra.
  - simpl; lra.
  - simpl; lra.
Defined.

Lemma grouped_in_layers vw0 vh0 ls ss :
  grouped vw0 vh0 ls ss -> (forall l, In l ls -> In l layers) ->
  Forall in_some_layer ss.
Proof.
  revert ss; induction ls as [|l ls IH]; intros ss H Hin; simpl in H.
  - subst; constructor.
  - destruct H as (run_l & rest & -> & _ & Hall & Hrest).
    apply Forall_app; split.
    + eapply Forall_impl; [|exact Hall].
      intros s (_ & _ & Hr & Hs & Hh & _).
      exists l. split; [apply Hin; now left|]. now repeat split.
    + apply IH; [exact Hrest|]. intros l' Hl'; apply Hin; now right.
Qed.

Lemma in_some_layer_fixed s s' :
  fixed_part s = fixed_part s' -> in_some_layer s -> in_some_layer s'.
Proof.
  unfold fixed_part; intros H (l & Hl & Hh & Hr & Hs).
  injection H as Er Es Eh _.
  exists l. rewrite <- Er, <- Es, <- Eh. now repeat split.
Qed.

Lemma Forall_fixed (P : Star -> Prop) ss ss' :
  (forall s s', fixed_part s = fixed_part s' -> P s -> P s') ->
  map fixed_part ss = map fixed_part ss' ->
  Forall P ss -> Forall P ss'.
Proof.
  intros HP; revert ss'; induction ss as [|s ss IH]; intros [|s' ss'] Hmap H;
    try discriminate; [constructor|].
  change (fixed_part s :: map fixed_part ss
          = fixed_part s' :: map fixed_part ss') in Hmap.
  assert (Hs : fixed_part s = fixed_part s') by congruence.
  assert (Hrest : map fixed_part ss = map fixed_part ss') by congruence.
  inversion H as [|? ? Hs0 Hss]; subst.
  constructor; [exact (HP s s' Hs Hs0)|now apply IH].
Qed.

Lemma in_some_layer_ranges s :
  in_some_layer s -> 10 <= spd s <= 48 /\ 1 <= r s <= 2.8.
Proof.
  intros (l & Hl & _ & Hr & Hs).
  destruct Hl as [<-|[<-|[<-|[]]]]; simpl in Hr, Hs; lra.
Qed.

(** X3.  At startup and after any frames and resizes, every star still
    has the tint, and a radius and a speed within the ranges, of one and
    the same layer; so its speed stays in [[10, 48]] and its radius in
    [[1, 2.8]]. *)
Theorem stars_stay_in_layer win g now0 evs :
  rng_ok g -> 0 <= innerWidth win -> 0 <= innerHeight win ->
  Forall (fun s => in_some_layer s /\ 10 <= spd s <= 48 /\ 1 <= r s <= 2.8)
         (stars (run evs (init win g now0))).
Proof.
  intros Hg Hw Hh.
  eapply Forall_impl;
    [intros s Hs; split; [exact Hs|apply in_some_layer_ranges, Hs]|].
  apply (Forall_fixed in_some_layer (stars (init win g now0)));
    [exact in_some_layer_fixed|symmetry; apply run_fixed|].
  rewrite init_stars.
  destruct (build_stars_grouped layers (innerWidth win) (innerHeight win) [] g
              Hg Hw Hh layers_wf) as (rest & -> & Hgr).
  apply (grouped_in_layers (innerWidth win) (innerHeight win) layers);
    [exact Hgr|auto].
Qed.

Lemma stars_stay_in_layer_witness :
  Forall (fun s => in_some_layer s /\ 10 <= spd s <= 48 /\ 1 <= r s <= 2.8)
         (stars (run [OnFrame 16; OnResize enlarged_window; OnFrame 33]
                     (init sample_window sample_rng 0))).
Proof.
  apply (stars_stay_in_layer sample_window sample_rng 0).
  - intros n; unfold sample_rng; lra.
  - simpl; lra.
  - simpl; lra.
Defined.

(** ** What a frame paints *)

Lemma painted_app a b :
  painted (a ++ b) = fold_left paint_call b (painted a).
Proof. unfold painted. apply fold_left_app. Qed.

Lemma fold_paint_matrix cs acc :
  pen_matrix (fst (fold_left paint_call cs acc))
  = fold_left apply_call cs (pen_matrix (fst acc)).
Proof.
  revert acc; induction cs as [|c cs IH]; intros [pen marks]; [reflexivity|].
  simpl fold_left. rewrite IH. f_equal.
  destruct c; reflexivity.
Qed.

Lemma pen_matrix_current cs : pen_matrix (pen_of cs) = current_transform cs.
Proof. unfold pen_of, painted. now rewrite fold_paint_matrix. Qed.

Lemma fold_paint_star dt vw0 vh0 s pen marks :
  exists pen',
    fold_left paint_call (snd (star_body dt vw0 vh0 s)) (pen, marks)
    = (pen', marks ++ [star_mark (pen_matrix pen) (advance_star dt vw0 vh0 s)])
    /\ pen_matrix pen' = pen_matrix pen /\ pen_blur pen' = 0.
Proof.
  rewrite star_body_snd. unfold paint, star_mark.
  rewrite advance_star_t. simpl fold_left.
  eexists; split; [reflexivity|]. split; reflexivity.
Qed.

Lemma fold_paint_stars dt vw0 vh0 ss pen marks :
  pen_blur pen = 0 ->
  exists pen',
    fold_left paint_call (snd (for_stars dt vw0 vh0 ss)) (pen, marks)
    = (pen', marks ++ map (star_mark (pen_matrix pen)) (advance dt vw0 vh0 ss))
    /\ pen_matrix pen' = pen_matrix pen /\ pen_blur pen' = 0.
Proof.
  revert pen marks; induction ss as [|s rest IH]; intros pen marks Hb.
  - exists pen. simpl. now rewrite app_nil_r.
  - rewrite advance_map. cbn [for_stars map].
    destruct (fold_paint_star dt vw0 vh0 s pen marks) as (pen1 & H1 & Hm1 & Hb1).
    destruct (star_body dt vw0 vh0 s) as [s' cs]; simpl snd in H1.
    specialize (IH pen1 (marks ++ [star_mark (pen_matrix pen)
                                           (advance_star dt vw0 vh0 s)]) Hb1).
    destruct IH as (pen2 & H2 & Hm2 & Hb2).
    rewrite advance_map in H2.
    destruct (for_stars dt vw0 vh0 rest) as [rest' cs']; simpl snd in *.
    exists pen2. rewrite fold_left_app, H1, H2, Hm1, <- app_assoc.
    split; [reflexivity|]. split; [congruence|exact Hb2].
Qed.

Lemma draw_ctx now e :
  ctx (draw now e)
  = ctx e
    ++ [ ClearRect 0 0 (vw e) (vh e);
         SetFillStyle (Gradient (vignette (vw e) (vh e)));
         FillRect 0 0 (vw e) (vh e) ]
    ++ snd (for_stars (frame_dt now (last e)) (vw e) (vh e) (stars e)).
Proof. unfold draw. now destruct (for_stars _ _ _ _). Qed.

Lemma draw_painted now e :
  pen_blur (pen_of (ctx e)) = 0 ->
  marks_of (ctx (draw now e))
  = marks_of (ctx e)
    ++ frame_marks (current_transform (ctx e)) (vw e) (vh e) (stars (draw now e))
  /\ pen_blur (pen_of (ctx (draw now e))) = 0.
Proof.
  intros Hb. rewrite draw_stars, draw_ctx, <- pen_matrix_current.
  unfold marks_of, pen_of in *. rewrite painted_app.
  destruct (painted (ctx e)) as [pen marks]; simpl fst in *; simpl snd.
  cbn [app fold_left paint_call].
  destruct (fold_paint_stars (frame_dt now (last e)) (vw e) (vh e) (stars e)
              {| pen_matrix := pen_matrix pen;
                 pen_fill := Gradient (vignette (vw e) (vh e));
                 pen_blur := pen_blur pen; pen_glow := pen_glow pen;
                 pen_path := pen_path pen |}
              ((marks ++ [Cleared (pen_matrix pen) 0 0 (vw e) (vh e)])
                 ++ [Rect (pen_matrix pen) (Gradient (vignette (vw e) (vh e)))
                          (pen_blur pen) 0 0 (vw e) (vh e)]) Hb)
    as (pen' & H' & _ & Hb').
  cbn [pen_matrix pen_fill pen_blur] in H' |- *.
  rewrite H'. simpl fst; simpl snd.
  split; [|exact Hb'].
  unfold frame_marks. rewrite Hb, <- !app_assoc. reflexivity.
Qed.

Lemma resize_blur win e :
  pen_blur (pen_of (ctx (resize win e))) = pen_blur (pen_of (ctx e)).
Proof.
  unfold pen_of; simpl ctx. rewrite painted_app.
  now destruct (painted (ctx e)).
Qed.

Lemma run_blur evs e :
  pen_blur (pen_of (ctx e)) = 0 -> pen_blur (pen_of (ctx (run evs e))) = 0.
Proof.
  revert e; induction evs as [|ev evs IH]; intros e H; [exact H|].
  change (run (ev :: evs) e) with (run evs (handle e ev)).
  apply IH. destruct ev as [win|now]; simpl handle.
  - now rewrite resize_blur.
  - now apply draw_painted.
Qed.

Lemma init_blur win g now0 : pen_blur (pen_of (ctx (init win g now0))) = 0.
Proof.
  destruct (init_surface win g now0) as (_ & _ & _ & _ & _ & _ & ->).
  reflexivity.
Qed.

(** X4.  Whatever frames and resizes came before, a frame adds to the
    bitmap, in this order: the cleared logical rectangle; the vignette
    over the same rectangle, painted without glow; and one disc per star
    in pool order, each a single arc at the position the star has after
    the step, with the star's radius, the tint carrying the alpha of the
    star's new phase, and a glow of blur 8 -- all under the transform
    that scales by the pixel ratio.  No disc is painted twice and the
    glow never reaches the vignette. *)
Theorem frame_paints win g now0 evs now :
  marks_of (ctx (draw now (run evs (init win g now0))))
  = marks_of (ctx (run evs (init win g now0)))
    ++ frame_marks (scaling (dpr_of win))
                   (vw (run evs (init win g now0)))
                   (vh (run evs (init win g now0)))
                   (stars (draw now (run evs (init win g now0)))).
Proof.
  destruct (init_configured win g now0) as [Hc Hd].
  destruct (run_configured evs _ Hc) as [(_ & _ & _ & _ & _ & _ & Ht) Hd'].
  destruct (draw_painted now (run evs (init win g now0))) as [H _].
  - apply run_blur, init_blur.
  - rewrite H, Ht, Hd', Hd. reflexivity.
Qed.

(** ** The frame loop *)

Lemma draw_raf now e : raf (draw now e) = S (raf e).
Proof. unfold draw. now destruct (for_stars _ _ _ _). Qed.

Lemma init_raf win g now0 : raf (init win g now0) = 1%nat.
Proof. unfold init. now destruct (build_stars layers _ _ _ g). Qed.

Lemma run_raf evs e : raf (run evs e) = (raf e + frames evs)%nat.
Proof.
  revert e; induction evs as [|ev evs IH]; intros e; [simpl; lia|].
  change (run (ev :: evs) e) with (run evs (handle e ev)).
  rewrite IH. destruct ev as [win|now]; simpl handle; simpl frames.
  - reflexivity.
  - rewrite draw_raf; lia.
Qed.

(** X5.  [requestAnimationFrame(draw)] is called once at startup and once
    more in every frame, and a resize calls it not at all: after any
    frames and resizes the number of requests made for [draw] is the
    number of frames delivered plus one, so exactly one request for
    [draw] is outstanding. *)
Theorem one_draw_request_outstanding win g now0 evs :
  raf (run evs (init win g now0)) = S (frames evs).
Proof. rewrite run_raf, init_raf. reflexivity. Qed.

(** ** Stars under resizes *)

Lemma advance_star_lower dt vw0 vh0 s :
  0 <= dt -> 0 <= spd s -> -20 <= vw0 ->
  -10 <= x s -> -10 <= y s ->
  -10 <= x (advance_star dt vw0 vh0 s) /\ -10 <= y (advance_star dt vw0 vh0 s)
  /\ y (advance_star dt vw0 vh0 s) <= Rmax (vh0 + 10) (-10).
Proof.
  intros Hdt Hs Hw Hx Hy.
  assert (0 <= spd s * dt) by nra.
  rewrite advance_star_x, advance_star_y, drift_x, drift_y.
  pose proof (Rmax_l (vh0 + 10) (-10)). pose proof (Rmax_r (vh0 + 10) (-10)).
  destruct (Rlt_dec _ _); destruct (Rgt_dec _ _); unfold Rgt in *; lra.
Qed.

Lemma orderly_lower evs e :
  orderly (last e) evs -> -20 <= vw e ->
  Forall (fun s => -10 <= x s /\ -10 <= y s /\ 0 <= spd s) (stars e) ->
  Forall (fun s => -10 <= x s /\ -10 <= y s /\ 0 <= spd s) (stars (run evs e))
  /\ -20 <= vw (run evs e).
Proof.
  revert e; induction evs as [|ev evs IH]; intros e Ho Hw Hss; [now split|].
  change (run (ev :: evs) e) with (run evs (handle e ev)).
  destruct ev as [win|now]; simpl handle; simpl in Ho.
  - destruct Ho as (Hiw & _ & Ho). apply IH; simpl; [exact Ho|lra|exact Hss].
  - destruct Ho as [Hle Ho].
    destruct (draw_surface now e) as (_ & Hvw & _).
    apply IH; [now rewrite draw_last|now rewrite Hvw|].
    rewrite draw_stars, advance_map.
    apply Forall_map. eapply Forall_impl; [|exact Hss].
    intros s (Hx & Hy & Hs).
    assert (Hdt : 0 <= frame_dt now (last e)) by now apply frame_dt_nonneg.
    destruct (advance_star_lower (frame_dt now (last e)) (vw e) (vh e) s
                Hdt Hs Hw Hx Hy) as (Hx' & Hy' & _).
    rewrite advance_star_spd. now repeat split.
Qed.

(** X6.  With timestamps that never go back and windows of non-negative
    size, no star is ever left of [x = -10] or above [y = -10], however
    the window is resized between frames; and right after every frame no
    star is below [y = vh + 10], even when the window has just shrunk. *)
Theorem bounds_survive_resize win g now0 evs :
  rng_ok g -> 0 <= innerWidth win -> 0 <= innerHeight win ->
  orderly now0 evs ->
  Forall (fun s => -10 <= x s /\ -10 <= y s) (stars (run evs (init win g now0)))
  /\ (forall now,
         last (run evs (init win g now0)) <= now ->
         0 <= vh (run evs (init win g now0)) ->
         Forall (fun s => y s <= vh (run evs (init win g now0)) + 10)
                (stars (draw now (run evs (init win g now0))))).
Proof.
  intros Hg Hw Hh Ho.
  destruct (init_surface win g now0) as (_ & Hvw & _).
  destruct (orderly_lower evs (init win g now0)) as [Hlow Hvw'].
  - now rewrite init_last.
  - rewrite Hvw; lra.
  - rewrite init_stars.
    eapply Forall_impl;
      [|apply (build_stars_ok layers (innerWidth win) (innerHeight win) [] g);
        auto using layers_ok].
    intros s [[[Hx _] [Hy _]] Hs]. lra.
  - split.
    + eapply Forall_impl; [|exact Hlow]. intros s (Hx & Hy & _); now split.
    + intros now Hle Hvh.
      rewrite draw_stars, advance_map. apply Forall_map.
      eapply Forall_impl; [|exact Hlow].
      intros s (Hx & Hy & Hs).
      assert (Hdt : 0 <= frame_dt now (last (run evs (init win g now0))))
        by now apply frame_dt_nonneg.
      destruct (advance_star_lower _ (vw (run evs (init win g now0)))
                  (vh (run evs (init win g now0))) s Hdt Hs Hvw' Hx Hy)
        as (_ & _ & Hy').
      rewrite Rmax_left in Hy' by lra. exact Hy'.
Qed.

Lemma bounds_survive_resize_witness :
  Forall (fun s => -10 <= x s /\ -10 <= y s)
         (stars (run [OnFrame 16; OnResize zoomed_window; OnFrame 40]
                     (init sample_window sample_rng 0))).
Proof.
  apply (bounds_survive_resize sample_window sample_rng 0
           [OnFrame 16; OnResize zoomed_window; OnFrame 40]).
  - intros n; unfold sample_rng; lra.
  - simpl; lra.
  - simpl; lra.
  - simpl; lra.
Defined.

(** ** The cap on the frame delta *)

(** X7.  However long the gap since the last frame, one frame moves a star
    of speed [spd >= 0] left by at most [0.024 * spd] and down by at most
    [0.016 * spd] before the wrap tests, and advances its phase by at most
    0.16; for the speeds of the pool, at most 48, that is less than 1.2
    and 0.8 pixels. *)
Theorem no_teleport now last0 s :
  last0 <= now -> 0 <= spd s ->
  x s - 0.024 * spd s <= x (drift (frame_dt now last0) s) <= x s /\
  y s <= y (drift (frame_dt now last0) s) <= y s + 0.016 * spd s /\
  t s <= t (drift (frame_dt now last0) s) <= t s + 0.16 /\
  (spd s <= 48 ->
   x s - 1.152 <= x (drift (frame_dt now last0) s) /\
   y (drift (frame_dt now last0) s) <= y s + 0.768).
Proof.
  intros Hle Hs.
  pose proof (frame_dt_le now last0) as Hhi.
  assert (Hlo : 0 <= frame_dt now last0) by now apply frame_dt_nonneg.
  rewrite drift_x, drift_y, drift_t.
  repeat split; intros; nra.
Qed.

Lemma no_teleport_witness :
  x centred - 0.024 * spd centred
  <= x (drift (frame_dt 60000 0) centred) <= x centred.
Proof.
  apply (no_teleport 60000 0 centred); simpl; lra.
Defined.

(** ** Picking from an array *)

Lemma floor_index (k : nat) u :
  0 <= u < 1 -> (0 < k)%nat ->
  (0 <= Int_part (u * INR k) < Z.of_nat k)%Z.
Proof.
  intros Hu Hk.
  assert (0 < INR k) by now apply lt_0_INR.
  destruct (base_Int_part (u * INR k)) as [Hlo Hhi].
  rewrite INR_IZR_INZ in *.
  split.
  - assert (-1 < Int_part (u * IZR (Z.of_nat k)))%Z by (apply lt_IZR; nra).
    lia.
  - apply lt_IZR. nra.
Qed.

Lemma pick_some {A : Type} (l : list A) u :
  0 <= u < 1 -> l <> [] ->
  exists a, pick l u = Some a /\ In a l.
Proof.
  intros Hu Hl.
  assert (Hlen : (0 < List.length l)%nat)
    by (destruct l; [contradiction|simpl; lia]).
  destruct (floor_index (List.length l) u Hu Hlen) as [Hlo Hhi].
  unfold pick, nth_Z.
  destruct (Z.ltb_spec (Int_part (u * INR (List.length l))) 0) as [Hneg|_];
    [lia|].
  destruct (nth_error l (Z.to_nat (Int_part (u * INR (List.length l)))))
    as [a|] eqn:E.
  - exists a; split; [reflexivity|]. eapply nth_error_In; exact E.
  - apply nth_error_None in E. lia.
Qed.

(** X9.  With [Math.random] in [[0, 1)], indexing an array of at least one
    element by [Math.floor(Math.random() * length)] always finds an
    element of it, never [undefined]; on the keys of the surprises the
    four quarters of [[0, 1)] select, in this order, the confetti, the
    flash, the sticker and the banner swap. *)
Theorem pick_in_range :
  (forall (A : Type) (l : list A) u,
      0 <= u < 1 -> l <> [] -> exists a, pick l u = Some a /\ In a l) /\
  (forall u, 0 <= u < 0.25 -> pick keys u = Some K_confetti) /\
  (forall u, 0.25 <= u < 0.5 -> pick keys u = Some K_neonFlash) /\
  (forall u, 0.5 <= u < 0.75 -> pick keys u = Some K_sticker) /\
  (forall u, 0.75 <= u < 1 -> pick keys u = Some K_bannerSwap).
Proof.
  split; [intros A l u; apply pick_some|].
  assert (Hk : forall u (k : Z), IZR k <= u * 4 < IZR k + 1 ->
                               Int_part (u * INR (List.length keys)) = k).
  { intros u k H. symmetry. apply Int_part_spec. simpl. lra. }
  repeat split; intros u Hu; unfold pick.
  - rewrite (Hk u 0%Z) by lra. reflexivity.
  - rewrite (Hk u 1%Z) by lra. reflexivity.
  - rewrite (Hk u 2%Z) by lra. reflexivity.
  - rewrite (Hk u 3%Z) by lra. reflexivity.
Qed.

Lemma pick_in_range_witness : pick keys (/ 2) = Some K_sticker.
Proof.
  apply pick_in_range. lra.
Defined.

(** ** The hit counter (lines 105-114) *)

Lemma length_app_string a b :
  String.length (a ++ b) = (String.length a + String.length b)%nat.
Proof. induction a as [|c a IH]; simpl; [reflexivity|now rewrite IH]. Qed.

Lemma length_fill k c : String.length (fill k c) = k.
Proof. induction k as [|k IH]; simpl; [reflexivity|now rewrite IH]. Qed.

Lemma pad_length_max n len :
  String.length (pad n len) = Nat.max len (String.length (decimal n)).
Proof.
  unfold pad, padStart. rewrite length_app_string, length_fill. lia.
Qed.

(** X10.  [pad(n, len)] is at least [len] characters long and no longer
    than needed: its length is the larger of [len] and the length of
    [String(n)]; a number that already fills the width is left as it
    is. *)
Theorem pad_length n len :
  String.length (pad n len) = Nat.max len (String.length (decimal n)) /\
  ((len <= String.length (decimal n))%nat -> pad n len = decimal n).
Proof.
  split; [apply pad_length_max|].
  unfold pad, padStart.
  - intros H. replace (len - String.length (decimal n))%nat with O by lia.
    reflexivity.
Qed.

Lemma pad_length_witness : pad 1234567 6 = decimal 1234567.
Proof.
  apply (pad_length 1234567 6). vm_compute. lia.
Defined.

Lemma digits_string_of_uint d :
  digits_prefix (NilEmpty.string_of_uint d) = NilEmpty.string_of_uint d.
Proof. induction d; simpl; congruence. Qed.

Lemma digits_fill_zero k s :
  digits_prefix s = s -> digits_prefix (fill k "0" ++ s) = (fill k "0" ++ s)%string.
Proof.
  intros H; induction k as [|k IH]; simpl; [exact H|].
  change (is_digit "0") with true. cbv iota. now rewrite IH.
Qed.

Lemma uint_fill_zero k s d :
  NilEmpty.uint_of_string s = Some d ->
  NilEmpty.uint_of_string (fill k "0" ++ s) = Some (zeros k d).
Proof.
  intros H; induction k as [|k IH]; simpl; [exact H|].
  now rewrite IH.
Qed.

Lemma of_uint_zeros k d : N.of_uint (zeros k d) = N.of_uint d.
Proof. induction k as [|k IH]; simpl; [reflexivity|exact IH]. Qed.

Lemma digit_parses (m : N) :
  exists d, NilEmpty.uint_of_string (NilZero.string_of_uint (N.to_uint m)) = Some d
            /\ N.of_uint d = m
            /\ digits_prefix (NilZero.string_of_uint (N.to_uint m))
               = NilZero.string_of_uint (N.to_uint m)
            /\ NilZero.string_of_uint (N.to_uint m) <> EmptyString.
Proof.
  pose proof (DecimalN.Unsigned.of_to m) as Hm.
  destruct (N.to_uint m) as [|d|d|d|d|d|d|d|d|d|d] eqn:E;
    [exists (Decimal.D0 Decimal.Nil); simpl in *; repeat split; congruence| ..];
    (eexists; split; [apply NilEmpty.usu|];
     split; [exact Hm|];
     split; [apply digits_string_of_uint|simpl; discriminate]).
Qed.

Lemma parseInt_digit_first c s :
  is_digit c = true -> parseInt (String c s) = parse_digits (String c s).
Proof.
  destruct c as [[] [] [] [] [] [] [] []]; intros H;
    try discriminate H; reflexivity.
Qed.

Lemma parseInt_digits s :
  digits_prefix s = s -> s <> EmptyString -> parseInt s = parse_digits s.
Proof.
  destruct s as [|c s]; intros H Hne; [contradiction|].
  apply parseInt_digit_first.
  simpl in H. destruct (is_digit c); [reflexivity|discriminate].
Qed.

Lemma parse_digits_pad k (m : N) :
  parse_digits (fill k "0" ++ NilZero.string_of_uint (N.to_uint m))
  = Some (Z.of_N m).
Proof.
  destruct (digit_parses m) as (d & Hd & Hv & Hp & Hne).
  unfold parse_digits. rewrite (digits_fill_zero k _ Hp).
  assert (Hz : NilZero.uint_of_string
                 (fill k "0" ++ NilZero.string_of_uint (N.to_uint m))
               = Some (zeros k d)).
  { rewrite <- (uint_fill_zero k _ d Hd).
    destruct (fill k "0" ++ NilZero.string_of_uint (N.to_uint m))%string eqn:E;
      [|reflexivity].
    destruct k; simpl in E; [contradiction|discriminate]. }
  rewrite Hz. simpl. now rewrite of_uint_zeros, Hv.
Qed.

Lemma pad_nonneg n len :
  (0 <= n)%Z ->
  pad n len = (fill (len - String.length (decimal n)) "0"
               ++ NilZero.string_of_uint (N.to_uint (Z.to_N n)))%string.
Proof.
  intros H. unfold pad, padStart, decimal.
  destruct (Z.ltb_spec n 0); [lia|reflexivity].
Qed.

Lemma pad_digits n len :
  (0 <= n)%Z ->
  digits_prefix (pad n len) = pad n len /\ pad n len <> EmptyString.
Proof.
  intros H. rewrite (pad_nonneg n len H).
  destruct (digit_parses (Z.to_N n)) as (d & _ & _ & Hp & Hne).
  split; [now apply digits_fill_zero|].
  destruct (len - String.length (decimal n))%nat; simpl;
    [exact Hne|discriminate].
Qed.

Lemma parseInt_pad n len : (0 <= n)%Z -> parseInt (pad n len) = Some n.
Proof.
  intros H. destruct (pad_digits n len H) as [Hp Hne].
  rewrite (parseInt_digits _ Hp Hne), (pad_nonneg n len H), parse_digits_pad.
  now rewrite Z2N.id.
Qed.

Lemma digits_zeros_minus k rest :
  digits_prefix (fill k "0" ++ String "-" rest) = fill k "0".
Proof.
  induction k as [|k IH]; simpl; [reflexivity|].
  change (is_digit "0") with true. cbv iota. now rewrite IH.
Qed.

Lemma uint_zeros k :
  NilEmpty.uint_of_string (fill k "0") = Some (zeros k Decimal.Nil).
Proof. induction k as [|k IH]; simpl; [reflexivity|now rewrite IH]. Qed.

Lemma parseInt_zeros_minus k rest :
  parseInt (fill (S k) "0" ++ String "-" rest) = Some 0%Z.
Proof.
  change (fill (S k) "0" ++ String "-" rest)%string
    with (String "0" (fill k "0" ++ String "-" rest)).
  rewrite parseInt_digit_first by reflexivity.
  change (String "0" (fill k "0" ++ String "-" rest))
    with (fill (S k) "0" ++ String "-" rest)%string.
  unfold parse_digits. rewrite digits_zeros_minus.
  change (NilZero.uint_of_string (fill (S k) "0"))
    with (NilEmpty.uint_of_string (fill (S k) "0")).
  rewrite uint_zeros. simpl. now rewrite of_uint_zeros.
Qed.

(** X11.  The counter reads back what it shows: for an integer [n] with
    [0 <= n < 2^53] (where the number of the script is exact and
    [String(n)] writes all its digits), [parseInt(pad(n, len), 10)] is
    [n], whatever the width, and so is the value the script computes from
    that text when it starts.  A negative [n] above [-2^53] that is
    padded gets its zeros before the sign and reads back as 0. *)
Theorem pad_round_trip n len :
  ((0 <= n < 9007199254740992)%Z ->
   parseInt (pad n len) = Some n /\
   Z_or (parseInt (text_or (pad n len) "0")) 0 = n) /\
  ((-9007199254740992 < n < 0)%Z -> (String.length (decimal n) < len)%nat ->
   parseInt (pad n len) = Some 0%Z).
Proof.
  split.
  - intros [H _]. split; [now apply parseInt_pad|].
    destruct (pad_digits n len H) as [_ Hne].
    destruct (pad n len) eqn:E; [contradiction|].
    simpl text_or. rewrite <- E, (parseInt_pad n len H).
    destruct n; try reflexivity; lia.
  - intros [_ Hn] Hlen. unfold pad, padStart, decimal.
    destruct (Z.ltb_spec n 0) as [_|]; [|lia].
    unfold decimal in Hlen. destruct (Z.ltb_spec n 0) as [_|]; [|lia].
    destruct (len - String.length ("-" ++ digit (- n)))%nat as [|k] eqn:E; [lia|].
    apply parseInt_zeros_minus.
Qed.

Lemma pad_round_trip_witness : parseInt (pad 42 6) = Some 42%Z.
Proof.
  apply (pad_round_trip 42 6). lia.
Defined.

(** ** How the page grows *)

Lemma extends_refl p : extends p p.
Proof.
  repeat split; auto.
  - intros el n H; left; now exists n.
  - intros text H; left; now exists text.
  - intros el n H; left; now exists n.
Qed.

Lemma extends_trans p q r0 : extends p q -> extends q r0 -> extends p r0.
Proof.
  intros (T1 & S1 & L1 & F1 & I1) (T2 & S2 & L2 & F2 & I2).
  repeat split.
  - auto.
  - intros el n H. destruct (S2 el n H) as [[n0 H0]|H0]; [|now right].
    destruct (S1 el n0 H0) as [H1|[due H1]]; [now left|right].
    exists due; auto.
  - intros text H. destruct (L2 text H) as [[text0 H0]|H0]; [|now right].
    destruct (L1 text0 H0) as [H1|[due H1]]; [now left|right].
    exists due; auto.
  - lia.
  - intros el n H. destruct (I2 el n H) as [[n0 H0]|H0]; [|right; lia].
    destruct (I1 el n0 H0) as [H1|H1]; [now left|right; lia].
Qed.

(** A page that differs from [p] in neither stage, timers, overlay nor
    element counter extends it. *)
Lemma extends_same p q :
  stage q = stage p -> timers q = timers p -> login q = login p ->
  fresh q = fresh p -> extends p q.
Proof.
  intros Hs Ht Hl Hf. unfold extends. rewrite Hs, Ht, Hl, Hf.
  apply extends_refl.
Qed.

Lemma extends_setTimeout due task p : extends p (setTimeout due task p).
Proof.
  unfold extends, setTimeout; simpl. repeat split; auto.
  - intros x H; apply in_or_app; now left.
  - intros el n H; left; now exists n.
  - intros text H; left; now exists text.
  - intros el n H; left; now exists n.
Qed.

Lemma extends_sparkle tm px py p : extends p (sparkle tm px py p).
Proof.
  unfold extends, sparkle, setTimeout, appendChild; simpl. repeat split; auto.
  - intros x H; apply in_or_app; now left.
  - intros el n H. apply in_app_or in H. destruct H as [H|[H|[]]].
    + left; now exists n.
    + injection H as <- _. right. exists (tm + 900).
      apply in_or_app; right; now left.
  - intros text H; left; now exists text.
  - intros el n H. apply in_app_or in H. destruct H as [H|[H|[]]].
    + left; now exists n.
    + injection H as <- _. right; lia.
Qed.

Lemma extends_remove_el el p : extends p (remove_el el p).
Proof.
  unfold extends, remove_el; simpl. repeat split; auto.
  - intros el' n H. apply filter_In in H. left; exists n; tauto.
  - intros text H; left; now exists text.
  - intros el' n H. apply filter_In in H. left; exists n; tauto.
Qed.

Lemma in_restyle el f el' n p :
  In (el', n) (stage (restyle el f p)) -> exists n0, In (el', n0) (stage p).
Proof.
  unfold restyle; simpl. intros H. apply in_map_iff in H.
  destruct H as ([el0 n0] & Heq & Hin). simpl in Heq.
  destruct (Nat.eqb el0 el); injection Heq as <- _; now exists n0.
Qed.

Lemma extends_restyle el f p : extends p (restyle el f p).
Proof.
  unfold extends. repeat split; auto.
  - intros el' n H; left; exact (in_restyle el f el' n p H).
  - intros text H; left; now exists text.
  - intros el' n H; left; exact (in_restyle el f el' n p H).
Qed.

Lemma extends_burst k i tm p : extends p (burst k i tm p).
Proof.
  revert i p; induction k as [|k IH]; intros i p; cbn [burst];
    [apply extends_refl|].
  unfold rand, Math.random; cbn [fst snd].
  eapply extends_trans; [|apply IH].
  eapply extends_trans; [|apply extends_sparkle].
  now apply extends_same.
Qed.

Lemma extends_confetti_loop k tm p : extends p (confetti_loop k tm p).
Proof.
  revert p; induction k as [|k IH]; intros p; cbn [confetti_loop];
    [apply extends_refl|].
  unfold Math.random; cbn [fst snd].
  eapply extends_trans; [|apply IH].
  unfold extends, setTimeout, appendChild; simpl. repeat split; auto.
  - intros x H; apply in_or_app; now left.
  - intros el n H. apply in_app_or in H. destruct H as [H|[H|[]]].
    + left; now exists n.
    + injection H as <- _. right. exists (tm + 1000).
      apply in_or_app; right; now left.
  - intros text H; left; now exists text.
  - intros el n H. apply in_app_or in H. destruct H as [H|[H|[]]].
    + left; now exists n.
    + injection H as <- _. right; lia.
Qed.

Lemma extends_neonFlash tm p : extends p (neonFlash tm p).
Proof.
  unfold extends, neonFlash, setTimeout, appendChild; simpl. repeat split; auto.
  - intros x H; apply in_or_app; left; apply in_or_app; now left.
  - intros el n H. apply in_app_or in H. destruct H as [H|[H|[]]].
    + left; now exists n.
    + injection H as <- _. right. exists (tm + 700).
      apply in_or_app; right; now left.
  - intros text H; left; now exists text.
  - intros el n H. apply in_app_or in H. destruct H as [H|[H|[]]].
    + left; now exists n.
    + injection H as <- _. right; lia.
Qed.

Lemma extends_sticker tm p : extends p (sticker tm p).
Proof.
  unfold extends, sticker, setTimeout, appendChild, Math.random; simpl.
  repeat split; auto.
  - intros x H; apply in_or_app; now left.
  - intros el n H. apply in_app_or in H. destruct H as [H|[H|[]]].
    + left; now exists n.
    + injection H as <- _. right. exists (tm + 12000).
      apply in_or_app; right; now left.
  - intros text H; left; now exists text.
  - intros el n H. apply in_app_or in H. destruct H as [H|[H|[]]].
    + left; now exists n.
    + injection H as <- _. right; lia.
Qed.

Lemma extends_bannerSwap tm p : extends p (bannerSwap tm p).
Proof.
  unfold bannerSwap. destruct (banner p); [|apply extends_refl].
  eapply extends_trans; [|apply extends_setTimeout].
  now apply extends_same.
Qed.

Lemma extends_on_gacha tm p : extends p (on_gacha tm p).
Proof.
  unfold on_gacha, Math.random; cbn [fst snd].
  eapply extends_trans;
    [apply (extends_same p (with_rng (fun n => rng p (S n)) p)); reflexivity|].
  destruct (pick keys (rng p 0%nat)) as [[| | |]|]; simpl surprise.
  - apply extends_confetti_loop.
  - apply extends_neonFlash.
  - apply extends_sticker.
  - apply extends_bannerSwap.
  - apply extends_refl.
Qed.

Lemma extends_on_submit tm p : extends p (on_submit tm p).
Proof.
  unfold on_submit. destruct (login p) as [l|] eqn:E; [|apply extends_refl].
  unfold extends, setTimeout; simpl. repeat split; auto.
  - intros x H; apply in_or_app; left; apply in_or_app; now left.
  - intros el n H; left; now exists n.
  - intros text H; right. exists (tm + 2400).
    apply in_or_app; right; now left.
  - intros el n H; left; now exists n.
Qed.

Lemma extends_on_click tm target cx cy p : extends p (on_click tm target cx cy p).
Proof.
  unfold on_click.
  eapply extends_trans; [|apply extends_sparkle].
  destruct target as [el|]; [|apply extends_refl].
  destruct (find_el el p) as [[]|]; try apply extends_refl.
  apply extends_remove_el.
Qed.

Lemma extends_on_mousemove tm cx cy p : extends p (on_mousemove tm cx cy p).
Proof.
  unfold on_mousemove. destruct (Rgt_dec _ _); [|apply extends_refl].
  eapply extends_trans; [apply extends_sparkle|].
  now apply extends_same.
Qed.

Lemma extends_on_interval p : extends p (on_interval p).
Proof.
  unfold on_interval. destruct (hits p); [|apply extends_refl].
  unfold rand, Math.random; cbn [fst snd]. now apply extends_same.
Qed.

Lemma extends_fold_restyle fs (f : Fly -> Node -> Node) p :
  extends p (fold_left (fun q fl => restyle (fly_el fl) (f fl) q) fs p).
Proof.
  revert p; induction fs as [|fl fs IH]; intros p; [apply extends_refl|].
  simpl. eapply extends_trans; [apply extends_restyle|apply IH].
Qed.

Lemma extends_on_frame now p : extends p (on_frame now p).
Proof.
  unfold on_frame.
  eapply extends_trans;
    [apply (extends_same p (with_engine (draw now (engine p)) p)); reflexivity|].
  eapply extends_trans; [apply extends_fold_restyle|].
  now apply extends_same.
Qed.

Lemma extends_run_task tm task p : extends p (run_task tm task p).
Proof.
  destruct task as [el|el| | |old]; cbn [run_task].
  - apply extends_remove_el.
  - apply extends_restyle.
  - eapply extends_trans; [|apply extends_burst].
    destruct (login p) as [[shown text]|] eqn:E; [|apply extends_refl].
    unfold extends; simpl. rewrite E. repeat split; auto.
    + intros el n H; left; now exists n.
    + intros text' H. injection H as -> _. left; now exists text.
    + intros el n H; left; now exists n.
  - destruct (login p) as [[shown text]|] eqn:E; [|apply extends_refl].
    unfold extends; simpl. repeat split; auto.
    + intros el n H; left; now exists n.
    + intros text' H; discriminate H.
    + intros el n H; left; now exists n.
  - now apply extends_same.
Qed.

Lemma in_drop_nth {A : Type} (l : list A) k a b :
  nth_error l k = Some b -> In a l -> a <> b -> In a (drop_nth k l).
Proof.
  revert k; induction l as [|c l IH]; intros k Hk Hin Hne; [contradiction|].
  destruct k as [|k]; simpl in *.
  - injection Hk as ->. destruct Hin as [->|Hin]; [contradiction|exact Hin].
  - destruct Hin as [->|Hin]; [now left|right; now apply (IH k)].
Qed.

Lemma tracked_extends p q : tracked p -> extends p q -> tracked q.
Proof.
  intros Ht (T & S & _) el n H.
  destruct (S el n H) as [[n0 H0]|H0]; [|exact H0].
  destruct (Ht el n0 H0) as [due Hd]. exists due; auto.
Qed.

Lemma ids_below_extends p q : ids_below p -> extends p q -> ids_below q.
Proof.
  unfold ids_below. intros Hi (_ & _ & _ & Hf & I).
  apply Forall_forall. intros [el n] H. simpl.
  destruct (I el n H) as [[n0 H0]|H0]; [|lia].
  rewrite Forall_forall in Hi. specialize (Hi _ H0). simpl in Hi. lia.
Qed.

Lemma overlay_guarded_extends p q :
  overlay_guarded p -> extends p q -> overlay_guarded q.
Proof.
  unfold overlay_guarded. intros Hg (T & _ & L & _).
  destruct (login q) as [[[] text]|] eqn:E; try exact I.
  destruct (L text eq_refl) as [[text0 H0]|H0]; [|exact H0].
  rewrite H0 in Hg. destruct Hg as [due Hd]. exists due; auto.
Qed.

Lemma tracked_fire k p : tracked p -> tracked (fire k p).
Proof.
  intros Ht. unfold fire.
  destruct (nth_error (timers p) k) as [[due task]|] eqn:E; [|exact Ht].
  destruct task as [el|el| | |old].
  - cbn [run_task]. intros el' n H. simpl in H.
    apply filter_In in H. destruct H as [H Hne]. simpl in Hne.
    destruct (Ht el' n H) as [due' Hd]. exists due'. simpl.
    apply (in_drop_nth _ k _ (due, Remove el) E Hd).
    intros Heq; injection Heq as _ ->.
    rewrite Nat.eqb_refl in Hne. discriminate.
  - apply (tracked_extends (with_timers (drop_nth k (timers p)) p));
      [|apply extends_run_task].
    intros el' n H. destruct (Ht el' n H) as [due' Hd]. exists due'.
    apply (in_drop_nth _ k _ _ E Hd). discriminate.
  - apply (tracked_extends (with_timers (drop_nth k (timers p)) p));
      [|apply extends_run_task].
    intros el' n H. destruct (Ht el' n H) as [due' Hd]. exists due'.
    apply (in_drop_nth _ k _ _ E Hd). discriminate.
  - apply (tracked_extends (with_timers (drop_nth k (timers p)) p));
      [|apply extends_run_task].
    intros el' n H. destruct (Ht el' n H) as [due' Hd]. exists due'.
    apply (in_drop_nth _ k _ _ E Hd). discriminate.
  - apply (tracked_extends (with_timers (drop_nth k (timers p)) p));
      [|apply extends_run_task].
    intros el' n H. destruct (Ht el' n H) as [due' Hd]. exists due'.
    apply (in_drop_nth _ k _ _ E Hd). discriminate.
Qed.

Lemma ids_below_fire k p : ids_below p -> ids_below (fire k p).
Proof.
  intros Hi. unfold fire.
  destruct (nth_error (timers p) k) as [[due task]|]; [|exact Hi].
  apply (ids_below_extends (with_timers (drop_nth k (timers p)) p));
    [exact Hi|apply extends_run_task].
Qed.

Lemma overlay_guarded_fire k p : overlay_guarded p -> overlay_guarded (fire k p).
Proof.
  intros Hg. unfold fire.
  destruct (nth_error (timers p) k) as [[due task]|] eqn:E; [|exact Hg].
  assert (Hother : task <> Hide ->
                   overlay_guarded (with_timers (drop_nth k (timers p)) p)).
  { intros Hne. unfold overlay_guarded in *. simpl.
    destruct (login p) as [[[] text]|]; try exact I.
    destruct Hg as [due' Hd]. exists due'.
    apply (in_drop_nth _ k _ _ E Hd). congruence. }
  destruct task as [el|el| | |old];
    try (apply (overlay_guarded_extends (with_timers (drop_nth k (timers p)) p));
         [apply Hother; discriminate|apply extends_run_task]).
  cbn [run_task]. unfold overlay_guarded. cbn [login with_timers].
  destruct (login p) as [[shown text]|] eqn:E2;
    cbn [login with_login with_timers]; [exact I|rewrite E2; exact I].
Qed.

Lemma extends_react p i : (forall k, i <> Timeout k) -> extends p (react p i).
Proof.
  intros Hi. destruct i; simpl react.
  - now apply extends_same.
  - apply extends_on_frame.
  - apply extends_on_mousemove.
  - apply extends_on_click.
  - apply extends_on_interval.
  - apply extends_on_submit.
  - apply extends_on_gacha.
  - now destruct (Hi k).
Qed.

Lemma react_keeps (P : Page -> Prop) :
  (forall p q, P p -> extends p q -> P q) ->
  (forall k p, P p -> P (fire k p)) ->
  forall inputs p, P p -> P (play inputs p).
Proof.
  intros Hext Hfire. induction inputs as [|i inputs IH]; intros p Hp;
    [exact Hp|].
  change (play (i :: inputs) p) with (play inputs (react p i)).
  apply IH. destruct i;
    try (apply (Hext p); [exact Hp|apply extends_react; discriminate]).
  apply Hfire, Hp.
Qed.

(** ** Nothing stays on the stage *)

(** X12.  Whatever the user and the host do to the page after the script
    has run -- moves, clicks, submits, gacha draws, frames, resizes,
    timeouts in any order -- every element the script has put on the
    stage has a pending timeout that removes it.  So once no timeout is
    pending the stage is empty: no sparkle, confetti, flash or sticker is
    left behind. *)
Theorem nothing_left_behind win g now0 doc inputs :
  tracked (play inputs (start win g now0 doc)) /\
  (timers (play inputs (start win g now0 doc)) = [] ->
   stage (play inputs (start win g now0 doc)) = []).
Proof.
  assert (Ht : tracked (play inputs (start win g now0 doc))).
  { apply (react_keeps tracked tracked_extends tracked_fire).
    intros el n H; destruct H. }
  split; [exact Ht|].
  intros Hempty.
  destruct (stage (play inputs (start win g now0 doc))) as [|[el n] rest] eqn:E;
    [reflexivity|].
  destruct (Ht el n) as [due Hd]; [rewrite E; now left|].
  rewrite Hempty in Hd. destruct Hd.
Qed.

(** X13.  If the overlay is hidden when the page loads, then at any later
    moment it is shown only while a timeout that hides it is pending; it
    can never stay up for good. *)
Theorem overlay_comes_down win g now0 doc inputs :
  overlay_hidden doc ->
  overlay_guarded (play inputs (start win g now0 doc)) /\
  (timers (play inputs (start win g now0 doc)) = [] ->
   forall text, login (play inputs (start win g now0 doc)) <> Some (true, text)).
Proof.
  intros Hdoc.
  assert (Hg : overlay_guarded (play inputs (start win g now0 doc))).
  { apply (react_keeps overlay_guarded overlay_guarded_extends
                       overlay_guarded_fire).
    unfold overlay_guarded, overlay_hidden in *. cbn [login start].
    destruct (doc_login doc) as [[[] text]|]; [contradiction|exact I|exact I]. }
  split; [exact Hg|].
  intros Hempty text Hl. unfold overlay_guarded in Hg. rewrite Hl in Hg.
  destruct Hg as [due Hd]. rewrite Hempty in Hd. destruct Hd.
Qed.

Lemma overlay_comes_down_witness :
  overlay_guarded (play [Submit 0; Timeout 0; Submit 1000; Timeout 0]
                        (start sample_window sample_rng 0 sample_doc)).
Proof.
  apply (overlay_comes_down sample_window sample_rng 0 sample_doc
           [Submit 0; Timeout 0; Submit 1000; Timeout 0]).
  exact I.
Defined.

(** ** The sparkles of the pointer (lines 85-103) *)

Lemma on_mousemove_accept tm cx cy p :
  tm - lastSparkle p > 40 ->
  stage (on_mousemove tm cx cy p) = stage p ++ [(fresh p, SparkleDiv cx cy)] /\
  timers (on_mousemove tm cx cy p) = timers p ++ [(tm + 900, Remove (fresh p))] /\
  fresh (on_mousemove tm cx cy p) = S (fresh p) /\
  lastSparkle (on_mousemove tm cx cy p) = tm.
Proof.
  intros H. unfold on_mousemove.
  destruct (Rgt_dec _ _); [|contradiction]. repeat split.
Qed.

Lemma on_mousemove_reject tm cx cy p :
  ~ tm - lastSparkle p > 40 -> on_mousemove tm cx cy p = p.
Proof.
  intros H. unfold on_mousemove.
  destruct (Rgt_dec _ _); [contradiction|reflexivity].
Qed.

Lemma accepted_spaced prev ms :
  spaced prev (map (fun m => fst (fst m)) (accepted prev ms)).
Proof.
  revert prev; induction ms as [|m ms IH]; intros prev; [exact I|].
  cbn [accepted]. destruct (Rgt_dec (fst (fst m) - prev) 40) as [H|H].
  - split; [exact H|apply IH].
  - apply IH.
Qed.

Lemma accepted_incl prev ms : incl (accepted prev ms) ms.
Proof.
  revert prev; induction ms as [|m ms IH]; intros prev; [apply incl_refl|].
  cbn [accepted]. destruct (Rgt_dec (fst (fst m) - prev) 40).
  - intros a [<-|Ha]; [now left|right; exact (IH _ a Ha)].
  - intros a Ha; right; exact (IH _ a Ha).
Qed.

Lemma after_moves_nil p : after_moves p [] = p.
Proof.
  destruct p. unfold after_moves; simpl.
  rewrite !app_nil_r, Nat.add_0_r. reflexivity.
Qed.

Lemma after_moves_cons p tm cx cy acc :
  after_moves (with_lastSparkle tm (sparkle tm cx cy p)) acc
  = after_moves p (((tm, cx), cy) :: acc).
Proof.
  unfold after_moves.
  cbn [engine rng stage fresh timers flights lastSparkle hits val login banner
       with_lastSparkle sparkle setTimeout appendChild with_timers
       List.length map seq combine last_time fold_left fst snd].
  rewrite <- !app_assoc. cbn [app].
  replace (S (fresh p) + List.length acc)%nat
    with (fresh p + S (List.length acc))%nat by lia.
  reflexivity.
Qed.

(** X14.  A run of mouse moves leaves a sparkle for exactly those moves
    that come more than 40 ms after the last move that left one (the
    first: more than 40 ms after [lastSparkle]); so these sparkles are
    more than 40 ms apart.  Each sits where the pointer was and has a
    timeout due 900 ms after its move; [lastSparkle] becomes the time of
    the last such move, and the moves in between change nothing on the
    page. *)
Theorem mousemove_throttle ms p :
  play (moves ms) p = after_moves p (accepted (lastSparkle p) ms) /\
  spaced (lastSparkle p)
         (map (fun m => fst (fst m)) (accepted (lastSparkle p) ms)) /\
  incl (accepted (lastSparkle p) ms) ms.
Proof.
  split; [|split; [apply accepted_spaced|apply accepted_incl]].
  revert p; induction ms as [|[[tm cx] cy] ms IH]; intros p.
  - symmetry; apply after_moves_nil.
  - change (play (moves (((tm, cx), cy) :: ms)) p)
      with (play (moves ms) (on_mousemove tm cx cy p)).
    rewrite IH. unfold on_mousemove. cbn [accepted fst].
    destruct (Rgt_dec (tm - lastSparkle p) 40) as [Hgt|Hle].
    + apply after_moves_cons.
    + reflexivity.
Qed.

(** ** The burst after a login (lines 125-133) *)

Lemma burst_spec k i tm p :
  rng_ok (rng p) ->
  exists new,
    stage (burst k i tm p) = stage p ++ new /\
    List.length new = k /\
    Forall (fun n => in_burst (vw (engine p)) (vh (engine p)) (snd n)) new /\
    timers (burst k i tm p)
    = timers p ++ map (fun n => (tm + 900, Remove (fst n))) new /\
    rng_ok (rng (burst k i tm p)) /\
    login (burst k i tm p) = login p.
Proof.
  revert i p; induction k as [|k IH]; intros i p Hg; cbn [burst].
  - exists []. rewrite !app_nil_r.
    split; [reflexivity|]. split; [reflexivity|]. split; [constructor|].
    split; [reflexivity|]. split; [exact Hg|reflexivity].
  - unfold rand, Math.random; cbn [fst snd].
    match goal with
    | |- context [burst k (S i) tm ?q] =>
        destruct (IH (S i) q) as (new & Hs & Hl & Hb & Ht & Hr & Hlog);
          [intros n; apply Hg|]; set (p1 := q) in *
    end.
    exists ((fresh p, SparkleDiv
                        (vw (engine p) * 0.5
                         + cos (INR i / 14 * Math.PI * 2) * 160
                         + (rng p 0%nat * (20 - -20) + -20))
                        (vh (engine p) * 0.5
                         + Math.sin (INR i / 14 * Math.PI * 2) * 80
                         + (rng p 1%nat * (12 - -12) + -12))) :: new).
    rewrite Hs, Ht. subst p1. cbn [stage timers sparkle setTimeout appendChild
                                    with_timers with_rng fresh engine] in *.
    rewrite <- !app_assoc.
    split; [reflexivity|]. split; [simpl; now rewrite Hl|].
    split; [|split; [reflexivity|split; [exact Hr|exact Hlog]]].
    constructor; [|exact Hb].
    simpl. pose proof (Hg 0%nat). pose proof (Hg 1%nat).
    pose proof (COS_bound (INR i / 14 * Math.PI * 2)).
    pose proof (SIN_bound (INR i / 14 * Math.PI * 2)).
    unfold Math.sin. lra.
Qed.

(** X15.  When the login is granted, the access text changes and exactly
    14 sparkles are put on the stage, each within 180 px of the centre of
    the window horizontally and within 92 px vertically, each with a
    timeout due 900 ms later that removes it. *)
Theorem login_burst tm p :
  rng_ok (rng p) ->
  exists new,
    stage (run_task tm Grant p) = stage p ++ new /\
    List.length new = 14%nat /\
    Forall (fun n => in_burst (vw (engine p)) (vh (engine p)) (snd n)) new /\
    timers (run_task tm Grant p)
    = timers p ++ map (fun n => (tm + 900, Remove (fst n))) new /\
    (forall shown text,
        login p = Some (shown, text) ->
        login (run_task tm Grant p) = Some (shown, "ACCESS GRANTED"%string)).
Proof.
  intros Hg. cbn [run_task].
  destruct (login p) as [[shown text]|] eqn:E.
  - destruct (burst_spec 14 0 tm (with_login (Some (shown, "ACCESS GRANTED"%string)) p) Hg)
      as (new & Hs & Hl & Hb & Ht & _ & Hlog).
    exists new. repeat split; try assumption.
    intros shown' text' H. injection H as <- _. exact Hlog.
  - destruct (burst_spec 14 0 tm p Hg) as (new & Hs & Hl & Hb & Ht & _ & _).
    exists new. repeat split; try assumption.
    intros shown text H; discriminate H.
Qed.

Lemma push_stars_rng n layer vw0 vh0 acc g :
  rng_ok g -> rng_ok (snd (push_stars n layer vw0 vh0 acc g)).
Proof.
  revert acc g; induction n as [|n IH]; intros acc g Hg; cbn [push_stars];
    [exact Hg|].
  unfold new_star, rand, Math.random; cbn [fst snd].
  apply IH. intros k; apply Hg.
Qed.

Lemma build_stars_rng ls vw0 vh0 acc g :
  rng_ok g -> rng_ok (snd (build_stars ls vw0 vh0 acc g)).
Proof.
  revert acc g; induction ls as [|layer ls IH]; intros acc g Hg;
    cbn [build_stars]; [exact Hg|].
  pose proof (push_stars_rng (count layer) layer vw0 vh0 acc g Hg) as Hp.
  destruct (push_stars (count layer) layer vw0 vh0 acc g) as [acc' g'].
  now apply IH.
Qed.

Lemma start_rng_ok win g now0 doc :
  rng_ok g -> rng_ok (rng (start win g now0 doc)).
Proof. intros Hg. cbn [rng start]. now apply build_stars_rng. Qed.

Lemma sample_rng_ok : rng_ok sample_rng.
Proof. intros n; unfold sample_rng; lra. Qed.

Lemma login_burst_witness :
  exists new,
    stage (run_task 900 Grant (start sample_window sample_rng 0 sample_doc))
    = stage (start sample_window sample_rng 0 sample_doc) ++ new /\
    List.length new = 14%nat /\
    Forall (fun n => in_burst (vw (engine (start sample_window sample_rng 0 sample_doc)))
                              (vh (engine (start sample_window sample_rng 0 sample_doc)))
                              (snd n)) new /\
    timers (run_task 900 Grant (start sample_window sample_rng 0 sample_doc))
    = timers (start sample_window sample_rng 0 sample_doc)
      ++ map (fun n => (900 + 900, Remove (fst n))) new /\
    (forall shown text,
        login (start sample_window sample_rng 0 sample_doc) = Some (shown, text) ->
        login (run_task 900 Grant (start sample_window sample_rng 0 sample_doc))
        = Some (shown, "ACCESS GRANTED"%string)).
Proof.
  apply (login_burst 900 (start sample_window sample_rng 0 sample_doc)).
  apply start_rng_ok, sample_rng_ok.
Defined.

(** ** The surprises (lines 140-209) *)

Lemma launch_reach f text left_px top_px fontSize flight opacity :
  0 <= fly_dist f ->
  exists dx dy,
    launch f (ConfettiSpan text left_px top_px fontSize flight opacity)
    = ConfettiSpan text left_px top_px fontSize (Some (dx, dy)) (Some 0) /\
    - fly_dist f <= dx <= fly_dist f /\
    - fly_dist f <= dy <= fly_dist f.
Proof.
  intros Hd. eexists; eexists; split; [reflexivity|].
  unfold Math.sin.
  pose proof (COS_bound (fly_angle f)). pose proof (SIN_bound (fly_angle f)).
  split; split; nra.
Qed.

Lemma confetti_loop_spec k tm p :
  rng_ok (rng p) ->
  exists new fl,
    stage (confetti_loop k tm p) = stage p ++ new /\
    flights (confetti_loop k tm p) = flights p ++ fl /\
    timers (confetti_loop k tm p)
    = timers p ++ map (fun n => (tm + 1000, Remove (fst n))) new /\
    List.length new = k /\
    map fly_el fl = map fst new /\
    Forall (fun n => fresh_confetti (vw (engine p)) (vh (engine p)) (snd n)) new /\
    Forall (fun f => 160 <= fly_dist f <= 320
                     /\ 0 <= fly_angle f <= 2 * PI) fl /\
    rng_ok (rng (confetti_loop k tm p)).
Proof.
  revert p; induction k as [|k IH]; intros p Hg; cbn [confetti_loop].
  - exists [], []. rewrite !app_nil_r.
    split; [reflexivity|]. split; [reflexivity|]. split; [reflexivity|].
    split; [reflexivity|]. split; [reflexivity|].
    split; [constructor|]. split; [constructor|exact Hg].
  - unfold Math.random; cbn [fst snd].
    match goal with
    | |- context [confetti_loop k tm ?q] =>
        destruct (IH q) as (new & fl & Hs & Hf & Ht & Hl & Hm & Hn & Hfl & Hr);
          [intros n; apply Hg|]; set (p1 := q) in *
    end.
    exists ((fresh p, ConfettiSpan (text_of (pick emojis (rng p 0%nat)))
                                   (vw (engine p) / 2) (vh (engine p) / 2 - 40)
                                   (18 + rng p 1%nat * 18) None None) :: new),
           ({| fly_el := fresh p; fly_angle := rng p 2%nat * Math.PI * 2;
               fly_dist := 160 + rng p 3%nat * 160 |} :: fl).
    rewrite Hs, Hf, Ht. subst p1.
    cbn [stage timers flights setTimeout appendChild with_timers with_rng
         with_flights fresh engine] in *.
    rewrite <- !app_assoc.
    split; [reflexivity|]. split; [reflexivity|]. split; [reflexivity|].
    split; [simpl; now rewrite Hl|].
    split; [simpl; now rewrite Hm|].
    split; [|split; [|exact Hr]].
    + constructor; [|exact Hn]. cbn [snd fresh_confetti].
      destruct (pick_some emojis (rng p 0%nat) (Hg 0%nat)) as (a & -> & Ha);
        [discriminate|].
      pose proof (Hg 1%nat).
      repeat split; try assumption; lra.
    + constructor; [|exact Hfl]. cbn [fly_dist fly_angle]. unfold Math.PI.
      pose proof (Hg 2%nat). pose proof (Hg 3%nat). pose proof PI_RGT_0.
      repeat split; nra.
Qed.

(** X16.  The confetti surprise puts exactly 28 spans on the stage, each
    showing one of the six emoji at the point 40 px above the centre of
    the window, in a font size in [[18, 36]]; each has a timeout due
    1000 ms later that removes it, and a frame callback with an angle in
    [[0, 2 pi]] and a distance in [[160, 320]]; that callback moves the
    span by no more than its distance along either axis and makes it
    transparent. *)
Theorem confetti_burst tm p :
  rng_ok (rng p) ->
  (exists new fl,
     stage (confetti tm p) = stage p ++ new /\
     flights (confetti tm p) = flights p ++ fl /\
     timers (confetti tm p)
     = timers p ++ map (fun n => (tm + 1000, Remove (fst n))) new /\
     List.length new = 28%nat /\
     map fly_el fl = map fst new /\
     Forall (fun n => fresh_confetti (vw (engine p)) (vh (engine p)) (snd n)) new /\
     Forall (fun f => 160 <= fly_dist f <= 320 /\ 0 <= fly_angle f <= 2 * PI) fl) /\
  (forall f text left_px top_px fontSize flight opacity,
      0 <= fly_dist f ->
      exists dx dy,
        launch f (ConfettiSpan text left_px top_px fontSize flight opacity)
        = ConfettiSpan text left_px top_px fontSize (Some (dx, dy)) (Some 0) /\
        - fly_dist f <= dx <= fly_dist f /\
        - fly_dist f <= dy <= fly_dist f).
Proof.
  intros Hg. split; [|intros; now apply launch_reach].
  destruct (confetti_loop_spec 28 tm p Hg)
    as (new & fl & Hs & Hf & Ht & Hl & Hm & Hn & Hfl & _).
  exists new, fl. unfold confetti.
  split; [exact Hs|]. split; [exact Hf|]. split; [exact Ht|].
  split; [exact Hl|]. split; [exact Hm|]. split; [exact Hn|exact Hfl].
Qed.

Lemma confetti_burst_witness :
  exists new fl,
    stage (confetti 0 (start sample_window sample_rng 0 sample_doc))
    = stage (start sample_window sample_rng 0 sample_doc) ++ new /\
    flights (confetti 0 (start sample_window sample_rng 0 sample_doc))
    = flights (start sample_window sample_rng 0 sample_doc) ++ fl /\
    timers (confetti 0 (start sample_window sample_rng 0 sample_doc))
    = timers (start sample_window sample_rng 0 sample_doc)
      ++ map (fun n => (0 + 1000, Remove (fst n))) new /\
    List.length new = 28%nat /\
    map fly_el fl = map fst new /\
    Forall (fun n => fresh_confetti
                       (vw (engine (start sample_window sample_rng 0 sample_doc)))
                       (vh (engine (start sample_window sample_rng 0 sample_doc)))
                       (snd n)) new /\
    Forall (fun f => 160 <= fly_dist f <= 320 /\ 0 <= fly_angle f <= 2 * PI) fl.
Proof.
  apply (confetti_burst 0 (start sample_window sample_rng 0 sample_doc)).
  apply start_rng_ok, sample_rng_ok.
Defined.

Lemma round_bounds lo v :
  IZR lo <= v -> IZR lo <= Math_round v <= v + / 2 /\
                 exists k : Z, Math_round v = IZR k.
Proof.
  intros H. unfold Math_round, Math.floor.
  destruct (base_Int_part (v + / 2)) as [Hle Hgt].
  split; [|now exists (Int_part (v + / 2))].
  split; [|exact Hle].
  apply IZR_le.
  assert (lo - 1 < Int_part (v + / 2))%Z; [|lia].
  apply lt_IZR. rewrite minus_IZR. lra.
Qed.

(** X17.  In a window at least 80 px wide and high, the sticker surprise
    puts one sticker on the stage: one of the six emoji, at whole pixel
    coordinates at least 40 px from the left and top edges and at most
    [vw - 39.5] and [vh - 39.5], in a font size in [[40, 64]], turned by
    an angle in [[-15, 15]] written with one decimal; a timeout due
    12000 ms later removes it. *)
Theorem sticker_placed tm p :
  rng_ok (rng p) -> 80 <= vw (engine p) -> 80 <= vh (engine p) ->
  exists n,
    stage (sticker tm p) = stage p ++ [(fresh p, n)] /\
    placed_sticker (vw (engine p)) (vh (engine p)) n /\
    timers (sticker tm p) = timers p ++ [(tm + 12000, Remove (fresh p))].
Proof.
  intros Hg Hw Hh. unfold sticker, Math.random; cbn [fst snd].
  eexists. split; [reflexivity|]. split; [|reflexivity].
  cbn [placed_sticker].
  destruct (pick_some stickers (rng p 0%nat) (Hg 0%nat)) as (a & -> & Ha);
    [discriminate|].
  pose proof (Hg 1%nat). pose proof (Hg 2%nat).
  pose proof (Hg 3%nat). pose proof (Hg 4%nat).
  destruct (round_bounds 40 (rng p 1%nat * (vw (engine p) - 80) + 40))
    as [[Hl1 Hl2] Hl3]; [nra|].
  destruct (round_bounds 40 (rng p 2%nat * (vh (engine p) - 80) + 40))
    as [[Ht1 Ht2] Ht3]; [nra|].
  assert (rng p 1%nat * (vw (engine p) - 80) <= vw (engine p) - 80) by nra.
  assert (rng p 2%nat * (vh (engine p) - 80) <= vh (engine p) - 80) by nra.
  split; [exact Ha|].
  split; [split; [exact Hl1|lra]|]. split; [exact Hl3|].
  split; [split; [exact Ht1|lra]|]. split; [exact Ht3|].
  split; [lra|].
  exists (rng p 4%nat * 30 - 15). split; [lra|reflexivity].
Qed.

Lemma sticker_placed_witness :
  exists n,
    stage (sticker 0 (start sample_window sample_rng 0 sample_doc))
    = stage (start sample_window sample_rng 0 sample_doc)
      ++ [(fresh (start sample_window sample_rng 0 sample_doc), n)] /\
    placed_sticker (vw (engine (start sample_window sample_rng 0 sample_doc)))
                   (vh (engine (start sample_window sample_rng 0 sample_doc))) n /\
    timers (sticker 0 (start sample_window sample_rng 0 sample_doc))
    = timers (start sample_window sample_rng 0 sample_doc)
      ++ [(0 + 12000, Remove (fresh (start sample_window sample_rng 0 sample_doc)))].
Proof.
  destruct (init_surface sample_window sample_rng 0) as (_ & Hvw & Hvh & _).
  apply (sticker_placed 0 (start sample_window sample_rng 0 sample_doc)).
  - apply start_rng_ok, sample_rng_ok.
  - cbn [engine start]. rewrite Hvw. simpl. lra.
  - cbn [engine start]. rewrite Hvh. simpl. lra.
Defined.

Lemma filter_ids_below el (st : list (nat * Node)) :
  Forall (fun n => (fst n < el)%nat) st ->
  filter (fun n => negb (Nat.eqb (fst n) el)) st = st.
Proof.
  induction 1 as [|n st Hn _ IH]; [reflexivity|].
  simpl. rewrite IH.
  destruct (Nat.eqb_spec (fst n) el); [lia|reflexivity].
Qed.

Lemma find_ids_below el (st : list (nat * Node)) n rest :
  Forall (fun m => (fst m < el)%nat) st ->
  find (fun m => Nat.eqb (fst m) el) (st ++ (el, n) :: rest) = Some (el, n).
Proof.
  induction 1 as [|m st Hm _ IH]; simpl.
  - now rewrite Nat.eqb_refl.
  - destruct (Nat.eqb_spec (fst m) el); [lia|exact IH].
Qed.

(** X18.  A click on a sticker takes it off the stage and leaves a
    sparkle where the click was; the timeout of the sticker is still
    pending, and when it runs it finds nothing to remove. *)
Theorem sticker_click tm tm' cx cy p :
  ids_below p ->
  stage (on_click tm' (Some (fresh p)) cx cy (sticker tm p))
  = stage p ++ [(S (fresh p), SparkleDiv cx cy)] /\
  In (tm + 12000, Remove (fresh p))
     (timers (on_click tm' (Some (fresh p)) cx cy (sticker tm p))) /\
  stage (remove_el (fresh p) (on_click tm' (Some (fresh p)) cx cy (sticker tm p)))
  = stage (on_click tm' (Some (fresh p)) cx cy (sticker tm p)).
Proof.
  intros Hi. unfold ids_below in Hi.
  assert (Hst : exists n,
             stage (sticker tm p) = stage p ++ [(fresh p, n)]
             /\ (exists a b c d e, n = StickerDiv a b c d e)
             /\ fresh (sticker tm p) = S (fresh p)
             /\ timers (sticker tm p) = timers p ++ [(tm + 12000, Remove (fresh p))]).
  { unfold sticker, Math.random; cbn [fst snd].
    eexists. split; [reflexivity|]. split; [|split; reflexivity].
    do 5 eexists; reflexivity. }
  destruct Hst as (n & Hs & (a & b & c & d & e & ->) & Hf & Ht).
  unfold on_click, find_el. rewrite Hs, (find_ids_below _ _ _ [] Hi).
  cbn [option_map snd].
  assert (Hrem : stage (remove_el (fresh p) (sticker tm p)) = stage p).
  { cbn [stage remove_el with_stage]. rewrite Hs, filter_app.
    rewrite (filter_ids_below _ _ Hi). simpl.
    rewrite Nat.eqb_refl. simpl. apply app_nil_r. }
  cbn [stage timers sparkle setTimeout appendChild with_timers remove_el
       with_stage fresh] in *.
  rewrite Hrem, Hf, Ht.
  split; [reflexivity|].
  split; [apply in_or_app; left; apply in_or_app; right; now left|].
  rewrite filter_app, (filter_ids_below _ _ Hi). cbn [filter fst].
  destruct (Nat.eqb_spec (S (fresh p)) (fresh p)); [lia|reflexivity].
Qed.

Lemma play_ids_below win g now0 doc inputs :
  ids_below (play inputs (start win g now0 doc)).
Proof.
  apply (react_keeps ids_below ids_below_extends ids_below_fire).
  unfold ids_below. cbn [stage start]. constructor.
Qed.

Lemma sticker_click_witness :
  stage (on_click 500 (Some (fresh (start sample_window sample_rng 0 sample_doc)))
                  10 20
                  (sticker 0 (start sample_window sample_rng 0 sample_doc)))
  = stage (start sample_window sample_rng 0 sample_doc)
    ++ [(S (fresh (start sample_window sample_rng 0 sample_doc)), SparkleDiv 10 20)].
Proof.
  exact (proj1 (sticker_click 0 500 10 20
                  (start sample_window sample_rng 0 sample_doc)
                  (play_ids_below sample_window sample_rng 0 sample_doc []))).
Defined.

Lemma nth_error_snoc {A : Type} (l : list A) a rest :
  nth_error (l ++ a :: rest) (List.length l) = Some a.
Proof. induction l as [|b l IH]; simpl; [reflexivity|exact IH]. Qed.

Lemma drop_nth_snoc {A : Type} (l : list A) a rest :
  drop_nth (List.length l) (l ++ a :: rest) = l ++ rest.
Proof. induction l as [|b l IH]; simpl; [reflexivity|now rewrite IH]. Qed.

(** X19.  A banner swap shows the surprise text and its timeout, when it
    runs, puts the old text back.  But a second swap made before that
    timeout has run saves the surprise text as the old one: once both
    timeouts have run, in the order they are due, the banner shows the
    surprise text and the original text is gone. *)
Theorem banner_swap tm tm2 p old :
  banner p = Some old ->
  banner (bannerSwap tm p) = Some ultra_rare /\
  timers (bannerSwap tm p) = timers p ++ [(tm + 3600, Restore old)] /\
  banner (fire (List.length (timers p)) (bannerSwap tm p)) = Some old /\
  timers (bannerSwap tm2 (bannerSwap tm p))
  = timers p ++ [(tm + 3600, Restore old); (tm2 + 3600, Restore ultra_rare)] /\
  banner (fire (List.length (timers p))
               (fire (List.length (timers p))
                     (bannerSwap tm2 (bannerSwap tm p))))
  = Some ultra_rare.
Proof.
  intros Hb.
  assert (H1 : bannerSwap tm p
               = setTimeout (tm + 3600) (Restore old)
                            (with_banner (Some ultra_rare) p))
    by (unfold bannerSwap; now rewrite Hb).
  assert (H2 : bannerSwap tm2 (bannerSwap tm p)
               = setTimeout (tm2 + 3600) (Restore ultra_rare)
                            (with_banner (Some ultra_rare) (bannerSwap tm p)))
    by (rewrite H1; reflexivity).
  split; [rewrite H1; reflexivity|].
  split; [rewrite H1; reflexivity|].
  split.
  - rewrite H1. unfold fire.
    cbn [timers setTimeout with_timers with_banner].
    rewrite nth_error_snoc. reflexivity.
  - split.
    + rewrite H2, H1. cbn [timers setTimeout with_timers with_banner].
      now rewrite <- app_assoc.
    + rewrite H2, H1. unfold fire at 2.
      cbn [timers setTimeout with_timers with_banner].
      rewrite <- app_assoc. cbn [app].
      rewrite nth_error_snoc, drop_nth_snoc.
      cbn [run_task]. unfold fire.
      cbn [timers with_timers with_banner].
      rewrite nth_error_snoc. reflexivity.
Qed.

Lemma banner_swap_witness :
  banner (fire (List.length (timers (start sample_window sample_rng 0 sample_doc)))
               (fire (List.length (timers (start sample_window sample_rng 0 sample_doc)))
                     (bannerSwap 1000
                        (bannerSwap 0 (start sample_window sample_rng 0 sample_doc)))))
  = Some ultra_rare.
Proof.
  apply (banner_swap 0 1000 (start sample_window sample_rng 0 sample_doc)
                     "WELCOME"%string).
  reflexivity.
Defined.

(** ** The counter under arbitrary inputs *)

Lemma same_counter_refl p : same_counter p p.
Proof. split; [reflexivity|split; [reflexivity|auto]]. Qed.

Lemma same_counter_tail p q :
  hits q = hits p -> val q = val p -> (rng_ok (rng p) -> rng_ok (rng q)) ->
  same_counter p q.
Proof. intros H V Rq. split; [exact H|split; [exact V|exact Rq]]. Qed.

Lemma same_counter_trans p q r0 :
  same_counter p q -> same_counter q r0 -> same_counter p r0.
Proof.
  intros (H1 & V1 & R1) (H2 & V2 & R2).
  split; [congruence|split; [congruence|auto]].
Qed.

Lemma same_counter_same p q :
  hits q = hits p -> val q = val p -> rng q = rng p -> same_counter p q.
Proof. intros H V Rq. unfold same_counter. rewrite H, V, Rq. auto. Qed.

Lemma same_counter_sparkle tm px py p : same_counter p (sparkle tm px py p).
Proof. now apply same_counter_same. Qed.

Lemma same_counter_burst k i tm p : same_counter p (burst k i tm p).
Proof.
  revert i p; induction k as [|k IH]; intros i p; cbn [burst];
    [apply same_counter_refl|].
  unfold rand, Math.random; cbn [fst snd].
  eapply same_counter_trans; [|apply IH].
  apply same_counter_tail; [reflexivity|reflexivity|intros Hg n; apply Hg].
Qed.

Lemma same_counter_confetti_loop k tm p :
  same_counter p (confetti_loop k tm p).
Proof.
  revert p; induction k as [|k IH]; intros p; cbn [confetti_loop];
    [apply same_counter_refl|].
  unfold Math.random; cbn [fst snd].
  eapply same_counter_trans; [|apply IH].
  apply same_counter_tail; [reflexivity|reflexivity|intros Hg n; apply Hg].
Qed.

Lemma same_counter_fold_restyle fs (f : Fly -> Node -> Node) p :
  same_counter p (fold_left (fun q fl => restyle (fly_el fl) (f fl) q) fs p).
Proof.
  revert p; induction fs as [|fl fs IH]; intros p; [apply same_counter_refl|].
  simpl. eapply same_counter_trans; [|apply IH].
  now apply same_counter_same.
Qed.

Lemma same_counter_run_task tm task p : same_counter p (run_task tm task p).
Proof.
  destruct task as [el|el| | |old]; cbn [run_task];
    try (now apply same_counter_same).
  - eapply same_counter_trans; [|apply same_counter_burst].
    destruct (login p) as [[shown text]|]; now apply same_counter_same.
  - destruct (login p) as [[shown text]|]; now apply same_counter_same.
Qed.

Lemma same_counter_react p i : i <> Interval -> same_counter p (react p i).
Proof.
  intros Hi. destruct i; cbn [react].
  - now apply same_counter_same.
  - unfold on_frame.
    apply (same_counter_trans p
             (fold_left (fun q f => restyle (fly_el f) (launch f) q)
                        (flights (with_engine (draw now (engine p)) p))
                        (with_engine (draw now (engine p)) p)));
      [|now apply same_counter_same].
    apply (same_counter_trans p (with_engine (draw now (engine p)) p));
      [now apply same_counter_same|apply same_counter_fold_restyle].
  - unfold on_mousemove. destruct (Rgt_dec _ _);
      [now apply same_counter_same|apply same_counter_refl].
  - unfold on_click.
    eapply same_counter_trans; [|apply same_counter_sparkle].
    destruct target as [el|]; [|apply same_counter_refl].
    destruct (find_el el p) as [[]|]; try apply same_counter_refl.
    now apply same_counter_same.
  - contradiction.
  - unfold on_submit. destruct (login p);
      [now apply same_counter_same|apply same_counter_refl].
  - unfold on_gacha, Math.random; cbn [fst snd].
    eapply same_counter_trans;
      [apply (same_counter_trans p (with_rng (fun n => rng p (S n)) p));
       [apply same_counter_tail;
        [reflexivity|reflexivity|intros Hg n; apply Hg]
       |apply same_counter_refl]|].
    destruct (pick keys (rng p 0%nat)) as [[| | |]|]; cbn [surprise].
    + apply same_counter_confetti_loop.
    + now apply same_counter_same.
    + unfold sticker, Math.random; cbn [fst snd].
      apply same_counter_tail; [reflexivity|reflexivity|intros Hg n; apply Hg].
    + unfold bannerSwap. destruct (banner _);
        [now apply same_counter_same|apply same_counter_refl].
    + apply same_counter_refl.
  - unfold fire. destruct (nth_error (timers p) k) as [[due task]|];
      [|apply same_counter_refl].
    eapply same_counter_trans; [|apply same_counter_run_task].
    now apply same_counter_same.
Qed.

Lemma on_interval_spec p text :
  hits p = Some text -> rng_ok (rng p) ->
  (val p + 1 <= val (on_interval p) <= val p + 3)%Z /\
  hits (on_interval p)
  = Some (pad (val (on_interval p)) (nat_or (utf16_length text) 6)) /\
  rng_ok (rng (on_interval p)).
Proof.
  intros Hh Hg. unfold on_interval. rewrite Hh.
  unfold rand, Math.random; cbn [fst snd hits val rng with_hits with_rng].
  pose proof (Hg 0%nat) as H0.
  destruct (base_Int_part (rng p 0%nat * (4 - 1) + 1)) as [Hle Hgt].
  assert (0 < Int_part (rng p 0%nat * (4 - 1) + 1))%Z by (apply lt_IZR; lra).
  assert (Int_part (rng p 0%nat * (4 - 1) + 1) < 4)%Z by (apply lt_IZR; lra).
  split; [lia|]. split; [|intros n; apply Hg].
  destruct text; reflexivity.
Qed.

Lemma intervals_nonneg inputs : (0 <= intervals inputs)%Z.
Proof.
  induction inputs as [|i inputs IH]; [simpl; lia|].
  destruct i; cbn [intervals]; lia.
Qed.

Lemma nat_or_ge n d : (n <= nat_or n d)%nat.
Proof. destruct n; simpl; lia. Qed.

Lemma digit_units c : is_digit c = true -> utf16_units c = 1%nat.
Proof.
  destruct c as [[] [] [] [] [] [] [] []]; intros H;
    try discriminate H; reflexivity.
Qed.

Lemma utf16_length_digits s :
  digits_prefix s = s -> utf16_length s = String.length s.
Proof.
  induction s as [|c s IH]; intros H; [reflexivity|].
  simpl in H. destruct (is_digit c) eqn:E; [|discriminate].
  injection H as H. cbn [utf16_length String.length].
  now rewrite (digit_units c E), (IH H).
Qed.

(** X20.  On a page with a hit counter, whatever else happens to the
    page, every tick of the interval adds 1, 2 or 3 to the value, as long
    as the value stays below 2^53 (where the number of the script is an
    exact integer): after the inputs the value has grown by at least the
    number of ticks and at most three times that.  The text, measured as
    the script measures it, never gets shorter, and after a tick (or if
    it showed the value before) it reads back as the value. *)
Theorem hit_counter inputs p text :
  hits p = Some text -> rng_ok (rng p) -> (0 <= val p)%Z ->
  (val p + 3 * intervals inputs < 9007199254740992)%Z ->
  (val p + intervals inputs <= val (play inputs p)
   <= val p + 3 * intervals inputs)%Z /\
  exists text',
    hits (play inputs p) = Some text' /\
    (utf16_length text <= utf16_length text')%nat /\
    ((0 < intervals inputs)%Z \/ parseInt text = Some (val p) ->
     parseInt text' = Some (val (play inputs p))).
Proof.
  revert p text; induction inputs as [|i inputs IH];
    intros p text Hh Hg Hv Hmax.
  - simpl. split; [lia|]. exists text.
    split; [exact Hh|]. split; [lia|]. intros [H|H]; [lia|exact H].
  - change (play (i :: inputs) p) with (play inputs (react p i)).
    pose proof (intervals_nonneg inputs) as Hk.
    assert (Hother : i <> Interval ->
                     intervals (i :: inputs) = intervals inputs ->
                     (val p + intervals (i :: inputs)
                      <= val (play inputs (react p i))
                      <= val p + 3 * intervals (i :: inputs))%Z /\
                     exists text',
                       hits (play inputs (react p i)) = Some text' /\
                       (utf16_length text <= utf16_length text')%nat /\
                       ((0 < intervals (i :: inputs))%Z
                        \/ parseInt text = Some (val p) ->
                        parseInt text' = Some (val (play inputs (react p i))))).
    { intros Hi Hc. rewrite Hc in *.
      destruct (same_counter_react p i Hi) as (Hh' & Hv' & Hg').
      rewrite Hh in Hh'.
      destruct (IH (react p i) text Hh' (Hg' Hg)) as (Hb & text' & Ht & Hl & Hp);
        [now rewrite Hv'|now rewrite Hv'|].
      rewrite Hv' in Hb, Hp.
      split; [exact Hb|]. exists text'. now repeat split. }
    destruct i; try (apply Hother; [discriminate|reflexivity]).
    cbn [react].
    change (intervals (Interval :: inputs)) with (1 + intervals inputs)%Z in *.
    destruct (on_interval_spec p text Hh Hg) as (Hb1 & Hh1 & Hg1).
    destruct (IH (on_interval p) _ Hh1 Hg1) as (Hb & text' & Ht & Hl & Hp);
      [lia|lia|].
    split; [lia|]. exists text'. split; [exact Ht|]. split.
    + destruct (pad_digits (val (on_interval p))
                           (nat_or (utf16_length text) 6)) as [Hd _]; [lia|].
      rewrite (utf16_length_digits _ Hd) in Hl.
      pose proof (pad_length_max (val (on_interval p))
                                 (nat_or (utf16_length text) 6)) as Hlen.
      pose proof (nat_or_ge (utf16_length text) 6). lia.
    + intros _. apply Hp. right. apply parseInt_pad. lia.
Qed.

Lemma hit_counter_witness :
  (val (start sample_window sample_rng 0 sample_doc)
   + intervals [Interval; Gacha 0; Interval]
   <= val (play [Interval; Gacha 0; Interval]
                (start sample_window sample_rng 0 sample_doc))
   <= val (start sample_window sample_rng 0 sample_doc)
      + 3 * intervals [Interval; Gacha 0; Interval])%Z.
Proof.
  assert (Hv : val (start sample_window sample_rng 0 sample_doc) = 1337%Z)
    by (cbn [val start doc_hits sample_doc]; vm_compute; reflexivity).
  refine (proj1 (hit_counter [Interval; Gacha 0; Interval]
                   (start sample_window sample_rng 0 sample_doc)
                   "001337"%string eq_refl
                   (start_rng_ok sample_window sample_rng 0 sample_doc
                                 sample_rng_ok) _ _)).
  - rewrite Hv; lia.
  - rewrite Hv. cbn [intervals]. lia.
Defined.

Lemma map_ids_below el (f : Node -> Node) (st : list (nat * Node)) :
  Forall (fun n => (fst n < el)%nat) st ->
  map (fun n => if Nat.eqb (fst n) el then (fst n, f (snd n)) else n) st = st.
Proof.
  induction 1 as [|n st Hn _ IH]; [reflexivity|].
  cbn [map]. rewrite IH.
  destruct (Nat.eqb_spec (fst n) el); [lia|reflexivity].
Qed.

(** X21.  The flash surprise puts one opaque flash on the stage; the
    first of its two timeouts, due 40 ms later, makes it transparent and
    touches no other element; the second, due 700 ms after the click,
    removes it and leaves the stage as it was before the flash. *)
Theorem flash_lifecycle tm p :
  ids_below p ->
  stage (neonFlash tm p) = stage p ++ [(fresh p, FlashDiv 1)] /\
  timers (neonFlash tm p)
  = timers p ++ [(tm + 40, Fade (fresh p)); (tm + 700, Remove (fresh p))] /\
  stage (fire (List.length (timers p)) (neonFlash tm p))
  = stage p ++ [(fresh p, FlashDiv 0)] /\
  stage (fire (List.length (timers p))
              (fire (List.length (timers p)) (neonFlash tm p)))
  = stage p.
Proof.
  intros Hi. unfold ids_below in Hi.
  assert (Ht : timers (neonFlash tm p)
               = timers p ++ [(tm + 40, Fade (fresh p)); (tm + 700, Remove (fresh p))])
    by (cbn [neonFlash timers setTimeout with_timers appendChild];
        now rewrite <- app_assoc).
  split; [reflexivity|]. split; [exact Ht|].
  assert (H1 : fire (List.length (timers p)) (neonFlash tm p)
               = restyle (fresh p) fade
                   (with_timers (timers p ++ [(tm + 700, Remove (fresh p))])
                                (neonFlash tm p))).
  { unfold fire. rewrite Ht, nth_error_snoc, drop_nth_snoc. reflexivity. }
  assert (S1 : stage (fire (List.length (timers p)) (neonFlash tm p))
               = stage p ++ [(fresh p, FlashDiv 0)]).
  { rewrite H1.
    cbn [restyle stage with_stage with_timers neonFlash setTimeout appendChild].
    rewrite map_app, (map_ids_below _ _ _ Hi). cbn [map fst snd].
    rewrite Nat.eqb_refl. reflexivity. }
  split; [exact S1|].
  unfold fire at 1. rewrite H1 at 1.
  cbn [timers restyle with_stage with_timers].
  rewrite (nth_error_snoc (timers p) (tm + 700, Remove (fresh p)) []).
  cbn [run_task remove_el stage with_stage with_timers].
  rewrite S1, filter_app, (filter_ids_below _ _ Hi). cbn [filter fst].
  rewrite Nat.eqb_refl. cbn [negb]. apply app_nil_r.
Qed.

Lemma flash_lifecycle_witness :
  stage (fire (List.length (timers (start sample_window sample_rng 0 sample_doc)))
              (fire (List.length (timers (start sample_window sample_rng 0 sample_doc)))
                    (neonFlash 0 (start sample_window sample_rng 0 sample_doc))))
  = stage (start sample_window sample_rng 0 sample_doc).
Proof.
  exact (proj2 (proj2 (proj2
           (flash_lifecycle 0 (start sample_window sample_rng 0 sample_doc)
              (play_ids_below sample_window sample_rng 0 sample_doc []))))).
Defined.

(** X22.  A submit shows the overlay with the text VERIFYING and sets two
    timeouts.  When the first runs, 900 ms later, the text becomes ACCESS
    GRANTED and the overlay is still shown; when the second runs,
    2400 ms after the submit, the overlay is hidden and the text
    stays. *)
Theorem login_flow tm p shown text :
  login p = Some (shown, text) -> rng_ok (rng p) ->
  login (on_submit tm p) = Some (true, "VERIFYING…"%string) /\
  timers (on_submit tm p) = timers p ++ [(tm + 900, Grant); (tm + 2400, Hide)] /\
  login (fire (List.length (timers p)) (on_submit tm p))
  = Some (true, "ACCESS GRANTED"%string) /\
  login (fire (List.length (timers p))
              (fire (List.length (timers p)) (on_submit tm p)))
  = Some (false, "ACCESS GRANTED"%string).
Proof.
  intros Hl Hg.
  assert (H0 : on_submit tm p
               = setTimeout (tm + 2400) Hide
                   (setTimeout (tm + 900) Grant
                      (with_login (Some (true, "VERIFYING…"%string)) p)))
    by (unfold on_submit; now rewrite Hl).
  assert (Ht : timers (on_submit tm p)
               = timers p ++ [(tm + 900, Grant); (tm + 2400, Hide)])
    by (rewrite H0; cbn [timers setTimeout with_timers with_login];
        now rewrite <- app_assoc).
  split; [rewrite H0; reflexivity|]. split; [exact Ht|].
  assert (H1 : fire (List.length (timers p)) (on_submit tm p)
               = burst 14 0 (tm + 900)
                   (with_login (Some (true, "ACCESS GRANTED"%string))
                      (with_timers (timers p ++ [(tm + 2400, Hide)])
                                   (on_submit tm p)))).
  { unfold fire. rewrite Ht, nth_error_snoc, drop_nth_snoc.
    cbn [run_task]. rewrite H0. reflexivity. }
  destruct (burst_spec 14 0 (tm + 900)
              (with_login (Some (true, "ACCESS GRANTED"%string))
                 (with_timers (timers p ++ [(tm + 2400, Hide)])
                              (on_submit tm p))))
    as (new & _ & _ & _ & Ht1 & _ & Hl1).
  { rewrite H0. exact Hg. }
  rewrite <- H1 in Ht1, Hl1.
  cbn [timers login with_login with_timers] in Ht1, Hl1.
  split; [exact Hl1|].
  unfold fire at 1. rewrite Ht1, <- app_assoc.
  cbn [app]. rewrite nth_error_snoc.
  cbn [run_task login with_timers]. rewrite Hl1. reflexivity.
Qed.

Lemma login_flow_witness :
  login (fire (List.length (timers (start sample_window sample_rng 0 sample_doc)))
              (fire (List.length (timers (start sample_window sample_rng 0 sample_doc)))
                    (on_submit 0 (start sample_window sample_rng 0 sample_doc))))
  = Some (false, "ACCESS GRANTED"%string).
Proof.
  exact (proj2 (proj2 (proj2
           (login_flow 0 (start sample_window sample_rng 0 sample_doc)
              false ""%string eq_refl
              (start_rng_ok sample_window sample_rng 0 sample_doc sample_rng_ok))))).
Defined.
